(** * VariantWise recommendation core: a shallow embedding

    The Python sources under [model/] are embedded as Rocq functions:

    - [knowledge_graph.py]          -> module [KG]
    - [preference_alignment.py]     -> module [Align]
    - [diversity_reranker.py]       -> module [Diversity]
    - [enhanced_filtering.py]       -> module [Filter]
    - [hybrid_graph_coalition.py]   -> module [PageRank]
    - [recommendation_pipeline.py]  -> module [Pipeline]

    Conventions.  Python [float] values are embedded as exact rationals
    ([Q]), so every numeric statement is about the real-number reading of
    the code.  A Python [dict] is an insertion-ordered association list
    ([dict V]): the sources iterate over dictionaries ([.values()],
    [.items()], [.keys()]) and the iteration order is observable.  Python
    [str] is embedded as [string]; the text functions are the ASCII
    readings of their Python counterparts. *)

From Stdlib Require Import String Ascii Bool Arith ZArith QArith DecimalString.
From Stdlib Require Import Lia Lqa Permutation Sorted List.
Import ListNotations.

Local Close Scope Q_scope.
Local Open Scope string_scope.
Local Open Scope list_scope.
Local Open Scope nat_scope.

(** ** Insertion-ordered dictionaries keyed by strings *)

Section PyDict.
Context {V : Type}.

Definition dict := list (string * V).

Fixpoint dict_get (d : dict) (k : string) : option V :=
  match d with
  | [] => None
  | (k', v) :: r => if String.eqb k' k then Some v else dict_get r k
  end.

Definition dict_mem (d : dict) (k : string) : bool :=
  match dict_get d k with Some _ => true | None => false end.

(** [d[k] = v]: an existing key keeps its position, a new key goes last. *)
Fixpoint dict_set (d : dict) (k : string) (v : V) : dict :=
  match d with
  | [] => [(k, v)]
  | (k', v') :: r =>
      if String.eqb k' k then (k', v) :: r else (k', v') :: dict_set r k v
  end.

Definition dict_keys (d : dict) : list string := map fst d.
Definition dict_values (d : dict) : list V := map snd d.

(** [d.get(k, default)] *)
Definition dict_get_default (d : dict) (k : string) (default : V) : V :=
  match dict_get d k with Some v => v | None => default end.

Lemma dict_get_set_eq (d : dict) k v : dict_get (dict_set d k v) k = Some v.
Proof.
  induction d as [|[k' v'] r IH]; simpl.
  - now rewrite String.eqb_refl.
  - destruct (String.eqb k' k) eqn:E; simpl; rewrite E; auto.
Qed.

Lemma dict_get_set_neq (d : dict) k k' v :
  k <> k' -> dict_get (dict_set d k v) k' = dict_get d k'.
Proof.
  intros Hne. induction d as [|[k0 v0] r IH]; simpl.
  - destruct (String.eqb k k') eqn:E; auto.
    apply String.eqb_eq in E. contradiction.
  - destruct (String.eqb k0 k) eqn:E; simpl.
    + apply String.eqb_eq in E; subst k0.
      destruct (String.eqb k k') eqn:E'; auto.
      apply String.eqb_eq in E'. contradiction.
    + now rewrite IH.
Qed.

Lemma dict_keys_set_present (d : dict) k v :
  dict_mem d k = true -> dict_keys (dict_set d k v) = dict_keys d.
Proof.
  unfold dict_mem, dict_keys.
  induction d as [|[k' v'] r IH]; simpl; [discriminate|].
  destruct (String.eqb k' k) eqn:E; simpl; intros H; auto.
  now rewrite IH.
Qed.

Lemma dict_keys_set_absent (d : dict) k v :
  dict_mem d k = false -> dict_keys (dict_set d k v) = dict_keys d ++ [k].
Proof.
  unfold dict_mem, dict_keys.
  induction d as [|[k' v'] r IH]; simpl; auto.
  destruct (String.eqb k' k) eqn:E; simpl; intros H; [discriminate|].
  now rewrite IH.
Qed.

Lemma dict_mem_In_keys (d : dict) k :
  dict_mem d k = true <-> In k (dict_keys d).
Proof.
  unfold dict_mem, dict_keys.
  induction d as [|[k' v'] r IH]; simpl.
  - split; [discriminate | tauto].
  - destruct (String.eqb k' k) eqn:E.
    + apply String.eqb_eq in E. split; auto.
    + apply String.eqb_neq in E. rewrite IH. split; [auto | intros [H|H]; congruence].
Qed.
Lemma dict_set_NoDup (d : dict) k v :
  NoDup (dict_keys d) -> NoDup (dict_keys (dict_set d k v)).
Proof.
  intros H. destruct (dict_mem d k) eqn:E.
  - now rewrite dict_keys_set_present.
  - rewrite dict_keys_set_absent by exact E.
    apply Permutation_NoDup with (l := k :: dict_keys d).
    + apply Permutation_cons_append.
    + constructor; [|exact H]. intros Hin.
      apply dict_mem_In_keys in Hin. congruence.
Qed.

Lemma dict_get_In_keys (d : dict) k v :
  dict_get d k = Some v -> In k (dict_keys d).
Proof.
  intros H. apply dict_mem_In_keys. unfold dict_mem. now rewrite H.
Qed.
End PyDict.

Arguments dict V : clear implicits.

(** Python truthiness of an optional string argument ([None] and [""] are
    falsy). *)
Definition truthy (o : option string) : bool :=
  match o with
  | Some s => negb (String.eqb s "")
  | None => false
  end.

Definition str_in (x : string) (l : list string) : bool :=
  existsb (String.eqb x) l.

Lemma str_in_In x l : str_in x l = true <-> In x l.
Proof.
  unfold str_in. rewrite existsb_exists. split.
  - intros [y [Hy E]]. apply String.eqb_eq in E. now subst.
  - intros H. exists x. split; auto. apply String.eqb_refl.
Qed.

(** Dynamic values found in catalogue rows and property maps. *)
Inductive pyval :=
| PNone
| PInt (z : Z)
| PStr (s : string).

(** ** knowledge_graph.py *)

Module KG.

Record Node := mkNode {
  node_id : string;
  node_type : string;
  node_properties : dict pyval
}.

Record Edge := mkEdge {
  source_id : string;
  target_id : string;
  edge_type : string;
  edge_properties : dict pyval
}.

Record KnowledgeGraph := mkGraph {
  nodes : dict Node;                        (* node_id -> Node *)
  edges : list Edge;
  edge_index : dict (dict (list Edge));     (* source_id -> type -> [Edge] *)
  reverse_edge_index : dict (dict (list Edge))
}.

(** [KnowledgeGraph.__init__] *)
Definition empty : KnowledgeGraph := mkGraph [] [] [] [].

(** [add_node]: the [isinstance] test is the typing of [node]. *)
Definition add_node (g : KnowledgeGraph) (node : Node) : KnowledgeGraph :=
  mkGraph (dict_set (nodes g) (node_id node) node)
          (edges g) (edge_index g) (reverse_edge_index g).

(** One of the two index updates of [add_edge]: [key] is the source id for
    the forward index and the target id for the reverse index. *)
Definition index_add (idx : dict (dict (list Edge))) (key : string) (e : Edge)
  : dict (dict (list Edge)) :=
  let idx1 := if dict_mem idx key then idx else dict_set idx key [] in
  let inner := dict_get_default idx1 key [] in
  let inner1 :=
    if dict_mem inner (edge_type e) then inner
    else dict_set inner (edge_type e) [] in
  let lst := dict_get_default inner1 (edge_type e) [] in
  dict_set idx1 key (dict_set inner1 (edge_type e) (lst ++ [e])).

Definition add_edge (g : KnowledgeGraph) (e : Edge) : KnowledgeGraph :=
  mkGraph (nodes g)
          (edges g ++ [e])
          (index_add (edge_index g) (source_id e) e)
          (index_add (reverse_edge_index g) (target_id e) e).

Definition has_node (g : KnowledgeGraph) (id : string) : bool :=
  dict_mem (nodes g) id.

Definition get_node (g : KnowledgeGraph) (id : string) : option Node :=
  dict_get (nodes g) id.

(** The edge list selected inside [get_neighbors] and [get_edges_from]. *)
Definition index_edges (idx : dict (dict (list Edge))) (id : string)
           (etype : option string) : list Edge :=
  match dict_get idx id with
  | None => []
  | Some inner =>
      if truthy etype then
        match etype with
        | Some t => dict_get_default inner t []
        | None => []
        end
      else concat (dict_values inner)
  end.

Definition get_edges_from (g : KnowledgeGraph) (src : string)
           (etype : option string) : list Edge :=
  index_edges (edge_index g) src etype.

Definition nodes_at (g : KnowledgeGraph) (sel : Edge -> string)
           (es : list Edge) : list Node :=
  flat_map (fun e => match dict_get (nodes g) (sel e) with
                     | Some n => [n]
                     | None => []
                     end) es.

Definition get_neighbors (g : KnowledgeGraph) (id : string)
           (etype : option string) (direction : string) : list Node :=
  (if str_in direction ["outgoing"; "both"]
   then nodes_at g target_id (index_edges (edge_index g) id etype)
   else [])
  ++
  (if str_in direction ["incoming"; "both"]
   then nodes_at g source_id (index_edges (reverse_edge_index g) id etype)
   else []).

Definition edge_matches (src dst etype : option string) (e : Edge) : bool :=
  negb (truthy src && negb (String.eqb (source_id e) (match src with Some s => s | None => "" end)))
  && negb (truthy dst && negb (String.eqb (target_id e) (match dst with Some s => s | None => "" end)))
  && negb (truthy etype && negb (String.eqb (edge_type e) (match etype with Some s => s | None => "" end))).

Definition get_edges (g : KnowledgeGraph) (src dst etype : option string)
  : list Edge :=
  filter (edge_matches src dst etype) (edges g).

Definition get_edge (g : KnowledgeGraph) (src dst : string)
           (etype : option string) : option Edge :=
  hd_error (get_edges g (Some src) (Some dst) etype).

Definition has_edge (g : KnowledgeGraph) (src dst : string)
           (etype : option string) : bool :=
  (0 <? length (get_edges g (Some src) (Some dst) etype))%nat.

(** *** [traverse]

    The nested [dfs] closure shares [visited] and [paths]; both are
    threaded through explicitly.  [depth] indexes [edge_types], so the
    recursion is structural on the edge types that remain to be followed.
    A node reached at the last depth is added to [visited] and the
    function returns before the [visited.remove] at the end of the body. *)

Definition visited_add (v : list string) (id : string) : list string :=
  if str_in id v then v else v ++ [id].

Definition visited_remove (v : list string) (id : string) : list string :=
  filter (fun x => negb (String.eqb x id)) v.

Fixpoint dfs (g : KnowledgeGraph) (max_depth : Z) (rest : list string)
         (depth : nat) (current : string) (path : list Node)
         (st : list string * list (list Node))
  : list string * list (list Node) :=
  if (max_depth <? Z.of_nat depth)%Z then st
  else
    let visited := visited_add (fst st) current in
    match rest with
    | [] => (visited, snd st ++ [path])
    | next_edge_type :: rest' =>
        let neighbors := get_neighbors g current (Some next_edge_type) "outgoing" in
        let st' :=
          fold_left
            (fun acc neighbor =>
               if str_in (node_id neighbor) (fst acc) then acc
               else dfs g max_depth rest' (S depth) (node_id neighbor)
                        (path ++ [neighbor]) acc)
            neighbors (visited, snd st) in
        (visited_remove (fst st') current, snd st')
    end.

Definition traverse (g : KnowledgeGraph) (start : string)
           (edge_types : list string) (max_depth : Z) : list (list Node) :=
  match dict_get (nodes g) start with
  | None => []
  | Some n => snd (dfs g max_depth edge_types 0 start [n] ([], []))
  end.

(** *** Call sequences *)

Inductive Call :=
| AddNode (n : Node)
| AddEdge (e : Edge).

Definition apply_call (g : KnowledgeGraph) (c : Call) : KnowledgeGraph :=
  match c with
  | AddNode n => add_node g n
  | AddEdge e => add_edge g e
  end.

Definition build (cs : list Call) : KnowledgeGraph :=
  fold_left apply_call cs empty.

(** Two call sequences differ only in the relative insertion order of
    edges of one type: position by position the calls are the same
    [add_node] call or two [add_edge] calls of the same edge type, and the
    two sequences contain the same calls. *)
Definition same_slot (c1 c2 : Call) : Prop :=
  match c1, c2 with
  | AddNode n1, AddNode n2 => n1 = n2
  | AddEdge e1, AddEdge e2 => edge_type e1 = edge_type e2
  | _, _ => False
  end.

Definition reordered_within_types (cs1 cs2 : list Call) : Prop :=
  Forall2 same_slot cs1 cs2 /\ Permutation cs1 cs2.


(** *** Facts about the indices *)

Lemma set_after_default {V} (d : dict V) k (v0 v : V) :
  dict_set (if dict_mem d k then d else dict_set d k v0) k v = dict_set d k v.
Proof.
  unfold dict_mem. induction d as [|[k' v'] r IH]; simpl.
  - now rewrite String.eqb_refl.
  - destruct (String.eqb k' k) eqn:E; simpl.
    + now rewrite E.
    + revert IH. destruct (dict_get r k); intros IH; simpl; rewrite E; auto.
      now rewrite IH.
Qed.

Lemma get_default_after_default {V} (d : dict V) k (v0 : V) :
  dict_get_default (if dict_mem d k then d else dict_set d k v0) k v0
  = dict_get_default d k v0.
Proof.
  unfold dict_get_default, dict_mem.
  destruct (dict_get d k) eqn:G; [now rewrite G|].
  now rewrite dict_get_set_eq.
Qed.

(** [index_add] appends [e] to the list stored under [(key, type e)]. *)
Lemma index_add_eq idx key e :
  index_add idx key e =
  let inner := dict_get_default idx key [] in
  dict_set idx key
    (dict_set inner (edge_type e)
              (dict_get_default inner (edge_type e) [] ++ [e])).
Proof.
  unfold index_add. cbv zeta.
  rewrite get_default_after_default.
  rewrite get_default_after_default.
  rewrite set_after_default.
  now rewrite set_after_default.
Qed.

Definition typed_lookup (idx : dict (dict (list Edge))) (k t : string)
  : list Edge :=
  match dict_get idx k with
  | Some inner => dict_get_default inner t []
  | None => []
  end.

Definition all_lookup (idx : dict (dict (list Edge))) (k : string)
  : list Edge :=
  match dict_get idx k with
  | Some inner => concat (dict_values inner)
  | None => []
  end.

Lemma typed_lookup_index_add idx key e k t :
  typed_lookup (index_add idx key e) k t =
  typed_lookup idx k t
  ++ (if String.eqb key k && String.eqb (edge_type e) t then [e] else []).
Proof.
  rewrite index_add_eq. cbv zeta. unfold typed_lookup.
  destruct (String.eqb key k) eqn:Ek; simpl.
  - apply String.eqb_eq in Ek; subst k.
    rewrite dict_get_set_eq.
    unfold dict_get_default at 1.
    destruct (String.eqb (edge_type e) t) eqn:Et.
    + apply String.eqb_eq in Et; subst t.
      rewrite dict_get_set_eq.
      unfold dict_get_default. now destruct (dict_get idx key).
    + apply String.eqb_neq in Et.
      rewrite dict_get_set_neq by assumption.
      rewrite app_nil_r.
      unfold dict_get_default. now destruct (dict_get idx key).
  - apply String.eqb_neq in Ek.
    rewrite dict_get_set_neq by assumption.
    now rewrite app_nil_r.
Qed.

Lemma concat_values_set (d : dict (list Edge)) t e :
  Permutation
    (concat (dict_values (dict_set d t (dict_get_default d t [] ++ [e]))))
    (concat (dict_values d) ++ [e]).
Proof.
  unfold dict_get_default, dict_values.
  induction d as [|[k l] r IH]; simpl.
  - reflexivity.
  - destruct (String.eqb k t) eqn:E; simpl.
    + rewrite <- !app_assoc. apply Permutation_app_head.
      apply Permutation_app_comm.
    + rewrite <- app_assoc. now apply Permutation_app_head.
Qed.

Lemma all_lookup_index_add idx key e k :
  Permutation (all_lookup (index_add idx key e) k)
              (all_lookup idx k ++ (if String.eqb key k then [e] else [])).
Proof.
  rewrite index_add_eq. cbv zeta. unfold all_lookup.
  destruct (String.eqb key k) eqn:Ek.
  - apply String.eqb_eq in Ek; subst k.
    rewrite dict_get_set_eq.
    etransitivity; [apply concat_values_set|].
    unfold dict_get_default. now destruct (dict_get idx key).
  - apply String.eqb_neq in Ek.
    rewrite dict_get_set_neq by assumption.
    now rewrite app_nil_r.
Qed.

(** The index obtained by inserting the edges [es] one after the other. *)
Definition index_of (key : Edge -> string) (es : list Edge)
           (idx : dict (dict (list Edge))) : dict (dict (list Edge)) :=
  fold_left (fun i e => index_add i (key e) e) es idx.

Lemma typed_lookup_index_of key es : forall idx k t,
  typed_lookup (index_of key es idx) k t =
  typed_lookup idx k t
  ++ filter (fun e => String.eqb (key e) k && String.eqb (edge_type e) t) es.
Proof.
  induction es as [|e es IH]; intros idx k t; simpl.
  - now rewrite app_nil_r.
  - unfold index_of in *. simpl. rewrite IH, typed_lookup_index_add.
    rewrite <- app_assoc. f_equal.
    now destruct (String.eqb (key e) k && String.eqb (edge_type e) t).
Qed.

Lemma all_lookup_index_of key es : forall idx k,
  Permutation (all_lookup (index_of key es idx) k)
              (all_lookup idx k ++ filter (fun e => String.eqb (key e) k) es).
Proof.
  induction es as [|e es IH]; intros idx k; simpl.
  - now rewrite app_nil_r.
  - unfold index_of in *. simpl.
    etransitivity; [apply IH|].
    etransitivity; [apply Permutation_app_tail, all_lookup_index_add|].
    rewrite <- app_assoc. apply Permutation_app_head.
    now destruct (String.eqb (key e) k).
Qed.

Lemma index_edges_typed idx id t :
  truthy (Some t) = true ->
  index_edges idx id (Some t) = typed_lookup idx id t.
Proof.
  intros H. unfold index_edges, typed_lookup. now rewrite H.
Qed.

Lemma index_edges_untyped idx id etype :
  truthy etype = false ->
  index_edges idx id etype = all_lookup idx id.
Proof.
  intros H. unfold index_edges, all_lookup. now rewrite H.
Qed.

(** *** Graphs built from call sequences *)

Definition edges_of (cs : list Call) : list Edge :=
  flat_map (fun c => match c with AddEdge e => [e] | AddNode _ => [] end) cs.

Definition nodes_of (cs : list Call) : list Node :=
  flat_map (fun c => match c with AddNode n => [n] | AddEdge _ => [] end) cs.

Lemma fold_calls cs : forall g,
  let g' := fold_left apply_call cs g in
  nodes g' = fold_left (fun d n => dict_set d (node_id n) n) (nodes_of cs) (nodes g)
  /\ edges g' = edges g ++ edges_of cs
  /\ edge_index g' = index_of source_id (edges_of cs) (edge_index g)
  /\ reverse_edge_index g' = index_of target_id (edges_of cs) (reverse_edge_index g).
Proof.
  induction cs as [|c cs IH]; intros g; simpl.
  - now rewrite app_nil_r.
  - destruct (IH (apply_call g c)) as (Hn & He & Hi & Hr).
    cbv zeta. rewrite Hn, He, Hi, Hr.
    destruct c as [n|e]; simpl; unfold index_of; simpl.
    + auto.
    + rewrite <- app_assoc. simpl. auto.
Qed.

Lemma Permutation_filter {A} (f : A -> bool) (l1 l2 : list A) :
  Permutation l1 l2 -> Permutation (filter f l1) (filter f l2).
Proof.
  induction 1 as [|x l l' _ IH|x y l|l l' l'' _ IH1 _ IH2]; simpl.
  - constructor.
  - destruct (f x); auto.
  - destruct (f x), (f y); auto. constructor.
  - etransitivity; eauto.
Qed.

Lemma reordered_nodes_of cs1 cs2 :
  Forall2 same_slot cs1 cs2 -> nodes_of cs1 = nodes_of cs2.
Proof.
  induction 1 as [|c1 c2 l1 l2 Hs _ IH]; simpl; auto.
  destruct c1, c2; simpl in *; try contradiction; subst; now rewrite IH.
Qed.

Lemma reordered_edges_of cs1 cs2 :
  Permutation cs1 cs2 -> Permutation (edges_of cs1) (edges_of cs2).
Proof.
  intros H. unfold edges_of. now apply Permutation_flat_map.
Qed.

Lemma index_edges_build_perm key es1 es2 id etype :
  Permutation es1 es2 ->
  Permutation (index_edges (index_of key es1 []) id etype)
              (index_edges (index_of key es2 []) id etype).
Proof.
  intros HP. destruct (truthy etype) eqn:T.
  - destruct etype as [t|]; [|discriminate].
    rewrite !index_edges_typed by assumption.
    rewrite !typed_lookup_index_of.
    apply Permutation_app_head. now apply Permutation_filter.
  - rewrite !index_edges_untyped by assumption.
    etransitivity; [apply all_lookup_index_of|].
    etransitivity; [|symmetry; apply all_lookup_index_of].
    apply Permutation_app_head. now apply Permutation_filter.
Qed.

Lemma existsb_Permutation {A} (f : A -> bool) l1 l2 :
  Permutation l1 l2 -> existsb f l1 = existsb f l2.
Proof.
  intros HP. apply eq_true_iff_eq. rewrite !existsb_exists.
  split; intros [x [Hx Hf]]; exists x; split; auto.
  - eapply Permutation_in; eauto.
  - eapply Permutation_in; [symmetry|]; eauto.
Qed.

Lemma filter_nonempty_existsb {A} (f : A -> bool) l :
  (0 <? length (filter f l))%nat = existsb f l.
Proof.
  induction l as [|x l IH]; simpl; auto.
  destruct (f x); simpl; auto.
Qed.

(** *** Concrete graphs used below *)

Definition n_user : Node := mkNode "user_1" "User" [].
Definition n_fuel : Node := mkNode "pref_fuel" "Preference" [("key", PStr "fuel_type")].
Definition n_body : Node := mkNode "pref_body" "Preference" [("key", PStr "body_type")].
Definition n_case : Node := mkNode "usecase_city" "UseCase" [("name", PStr "city")].

Definition e_user_fuel : Edge := mkEdge "user_1" "pref_fuel" "PREFERS" [].
Definition e_user_body : Edge := mkEdge "user_1" "pref_body" "PREFERS" [].
Definition e_fuel_case : Edge := mkEdge "pref_fuel" "usecase_city" "SUITABLE_FOR" [].
Definition e_body_case : Edge := mkEdge "pref_body" "usecase_city" "SUITABLE_FOR" [].

Definition calls_a : list Call :=
  [AddNode n_user; AddNode n_fuel; AddNode n_body; AddNode n_case;
   AddEdge e_user_fuel; AddEdge e_user_body;
   AddEdge e_fuel_case; AddEdge e_body_case].

(** [calls_a] with the two PREFERS insertions exchanged. *)
Definition calls_b : list Call :=
  [AddNode n_user; AddNode n_fuel; AddNode n_body; AddNode n_case;
   AddEdge e_user_body; AddEdge e_user_fuel;
   AddEdge e_fuel_case; AddEdge e_body_case].

Example get_neighbors_calls_a :
  get_neighbors (build calls_a) "user_1" (Some "PREFERS") "outgoing"
  = [n_fuel; n_body].
Proof. reflexivity. Qed.

Example traverse_calls_a :
  traverse (build calls_a) "user_1" ["PREFERS"; "SUITABLE_FOR"] 3
  = [[n_user; n_fuel; n_case]].
Proof. reflexivity. Qed.

Example traverse_calls_b :
  traverse (build calls_b) "user_1" ["PREFERS"; "SUITABLE_FOR"] 3
  = [[n_user; n_body; n_case]].
Proof. reflexivity. Qed.

Lemma calls_a_b_reordered : reordered_within_types calls_a calls_b.
Proof.
  split.
  - unfold calls_a, calls_b. repeat (constructor; [simpl; auto|]). constructor.
  - unfold calls_a, calls_b. do 4 apply perm_skip. apply perm_swap.
Qed.

(** *** Claims about the graph store *)

(** C10.  On a graph that already holds a node with the same id, [add_node]
    stores the new node under that id, keeps the key sequence of [nodes]
    (so no second entry appears), leaves every other node alone, and leaves
    the edge list and both edge indices unchanged.  The embedded function is
    total: no error value exists for it to return. *)
Theorem add_node_existing_id_replaces (g : KnowledgeGraph) (n : Node) :
  has_node g (node_id n) = true ->
  get_node (add_node g n) (node_id n) = Some n
  /\ dict_keys (nodes (add_node g n)) = dict_keys (nodes g)
  /\ (forall id, id <> node_id n -> get_node (add_node g n) id = get_node g id)
  /\ edges (add_node g n) = edges g
  /\ edge_index (add_node g n) = edge_index g
  /\ reverse_edge_index (add_node g n) = reverse_edge_index g.
Proof.
  intros Hmem. unfold has_node in Hmem. unfold get_node, add_node; simpl.
  repeat split.
  - apply dict_get_set_eq.
  - now apply dict_keys_set_present.
  - intros id Hne. apply dict_get_set_neq. congruence.
Qed.

Definition n_user_replacement : Node :=
  mkNode "user_1" "User" [("segment", PStr "returning")].

Lemma add_node_existing_id_replaces_witness :
  has_node (build calls_a) (node_id n_user_replacement) = true
  /\ get_node (add_node (build calls_a) n_user_replacement) "user_1"
     = Some n_user_replacement
  /\ dict_keys (nodes (add_node (build calls_a) n_user_replacement))
     = ["user_1"; "pref_fuel"; "pref_body"; "usecase_city"]
  /\ edges (add_node (build calls_a) n_user_replacement) = edges (build calls_a).
Proof.
  split; [reflexivity|].
  destruct (add_node_existing_id_replaces (build calls_a) n_user_replacement
              eq_refl) as (H1 & H2 & _ & H4 & _).
  split; [exact H1|]. split; [rewrite H2; reflexivity | exact H4].
Defined.

(** C8, as stated, fails: exchanging two PREFERS insertions changes the
    list returned by [get_neighbors], and changes the set of paths returned
    by [traverse] (the two results are not even rearrangements of each
    other). *)
Lemma reorder_changes_query_results :
  reordered_within_types calls_a calls_b
  /\ get_neighbors (build calls_a) "user_1" (Some "PREFERS") "outgoing"
     <> get_neighbors (build calls_b) "user_1" (Some "PREFERS") "outgoing"
  /\ ~ Permutation
         (traverse (build calls_a) "user_1" ["PREFERS"; "SUITABLE_FOR"] 3)
         (traverse (build calls_b) "user_1" ["PREFERS"; "SUITABLE_FOR"] 3).
Proof.
  split; [exact calls_a_b_reordered|]. split.
  - vm_compute. discriminate.
  - rewrite traverse_calls_a, traverse_calls_b. intros HP.
    apply Permutation_length_1 in HP. discriminate HP.
Qed.

(** C8, amended.  For two call sequences that differ only in the relative
    insertion order of same-type edges, [has_edge] answers identically and
    [get_neighbors] returns the same neighbours with the same
    multiplicities, possibly in another order. *)
Theorem reorder_preserves_has_edge_and_neighbor_multiset (cs1 cs2 : list Call) :
  reordered_within_types cs1 cs2 ->
  (forall src dst etype,
      has_edge (build cs1) src dst etype = has_edge (build cs2) src dst etype)
  /\ (forall id etype direction,
         Permutation (get_neighbors (build cs1) id etype direction)
                     (get_neighbors (build cs2) id etype direction)).
Proof.
  intros [Hslot Hperm].
  pose proof (reordered_nodes_of _ _ Hslot) as Hnodes.
  pose proof (reordered_edges_of _ _ Hperm) as Hedges.
  destruct (fold_calls cs1 empty) as (Hn1 & He1 & Hi1 & Hr1).
  destruct (fold_calls cs2 empty) as (Hn2 & He2 & Hi2 & Hr2).
  fold (build cs1) in Hn1, He1, Hi1, Hr1.
  fold (build cs2) in Hn2, He2, Hi2, Hr2.
  simpl in *.
  assert (HN : nodes (build cs1) = nodes (build cs2)) by congruence.
  split.
  - intros src dst etype. unfold has_edge, get_edges.
    rewrite !filter_nonempty_existsb, He1, He2.
    now apply existsb_Permutation.
  - intros id etype direction. unfold get_neighbors, nodes_at.
    rewrite HN, Hi1, Hi2, Hr1, Hr2.
    apply Permutation_app.
    + destruct (str_in direction ["outgoing"; "both"]); [|constructor].
      apply Permutation_flat_map. now apply index_edges_build_perm.
    + destruct (str_in direction ["incoming"; "both"]); [|constructor].
      apply Permutation_flat_map. now apply index_edges_build_perm.
Qed.

Lemma reorder_preserves_has_edge_and_neighbor_multiset_witness :
  reordered_within_types calls_a calls_b
  /\ has_edge (build calls_a) "user_1" "pref_body" (Some "PREFERS")
     = has_edge (build calls_b) "user_1" "pref_body" (Some "PREFERS")
  /\ Permutation (get_neighbors (build calls_a) "user_1" None "both")
                 (get_neighbors (build calls_b) "user_1" None "both").
Proof.
  split; [exact calls_a_b_reordered|].
  destruct (reorder_preserves_has_edge_and_neighbor_multiset calls_a calls_b
              calls_a_b_reordered) as [H1 H2].
  split; [apply H1 | apply H2].
Defined.

End KG.

(** ** Text helpers shared by the ranking modules

    ASCII readings of [str.lower], [str.strip], [re.sub], [re.findall],
    the [in] operator on strings, [str.split(" ")[0]] and [" ".join]. *)

Definition code (c : ascii) : nat := nat_of_ascii c.

Definition is_space (c : ascii) : bool :=
  let n := code c in
  ((9 <=? n) && (n <=? 13)) || ((28 <=? n) && (n <=? 32)).

Definition is_digit (c : ascii) : bool :=
  let n := code c in (48 <=? n) && (n <=? 57).

Definition is_lower_letter (c : ascii) : bool :=
  let n := code c in (97 <=? n) && (n <=? 122).

Definition lower_char (c : ascii) : ascii :=
  let n := code c in
  if (65 <=? n) && (n <=? 90) then ascii_of_nat (n + 32) else c.

Fixpoint lower (s : string) : string :=
  match s with
  | EmptyString => EmptyString
  | String c r => String (lower_char c) (lower r)
  end.

Fixpoint lstrip (s : string) : string :=
  match s with
  | EmptyString => EmptyString
  | String c r => if is_space c then lstrip r else s
  end.

Fixpoint rstrip (s : string) : string :=
  match s with
  | EmptyString => EmptyString
  | String c r =>
      let r' := rstrip r in
      if is_space c && String.eqb r' "" then EmptyString else String c r'
  end.

Definition strip (s : string) : string := rstrip (lstrip s).

(** [re.sub(CLASS+, " ", s)]: every maximal run of characters of the class
    becomes one space.  [in_run] says that the previous character belonged
    to the class. *)
Fixpoint sub_runs (p : ascii -> bool) (in_run : bool) (s : string) : string :=
  match s with
  | EmptyString => EmptyString
  | String c r =>
      if p c then
        if in_run then sub_runs p true r
        else String " "%char (sub_runs p true r)
      else String c (sub_runs p false r)
  end.

(** [needle in hay] *)
Fixpoint contains (needle hay : string) : bool :=
  String.prefix needle hay
  || match hay with
     | EmptyString => false
     | String _ r => contains needle r
     end.

(** [s.split(" ")[0]] *)
Fixpoint first_word (s : string) : string :=
  match s with
  | EmptyString => EmptyString
  | String c r => if Ascii.eqb c " "%char then EmptyString else String c (first_word r)
  end.

(** [" ".join(parts)] *)
Fixpoint join_space (parts : list string) : string :=
  match parts with
  | [] => EmptyString
  | [p] => p
  | p :: rest => String.append p (String " "%char (join_space rest))
  end.

(** The digits of the first match of [\d+], most significant first. *)
Fixpoint take_digits (s : string) : list nat :=
  match s with
  | EmptyString => []
  | String c r => if is_digit c then (code c - 48)%nat :: take_digits r else []
  end.

Fixpoint first_digit_run (s : string) : list nat :=
  match s with
  | EmptyString => []
  | String c r => if is_digit c then take_digits s else first_digit_run r
  end.

Definition digits_value (ds : list nat) : Z :=
  fold_left (fun acc d => (acc * 10 + Z.of_nat d)%Z) ds 0%Z.

(** [str(v)] *)
Definition py_str (v : pyval) : string :=
  match v with
  | PNone => "None"
  | PInt z => DecimalString.NilZero.string_of_int (Z.to_int z)
  | PStr s => s
  end.

(** Truthiness of a dynamic value. *)
Definition py_truthy (v : pyval) : bool :=
  match v with
  | PNone => false
  | PInt z => negb (Z.eqb z 0)
  | PStr s => negb (String.eqb s "")
  end.

(** [a or b] *)
Definition py_or (a b : pyval) : pyval := if py_truthy a then a else b.

(** Python sets of strings, kept as duplicate-free lists in first-insertion
    order.  CPython's own iteration order over a set of strings is not
    specified; nothing proved below depends on it. *)
Definition pyset (l : list string) : list string := nodup string_dec l.

(** *** Stable sorting

    [sorted(l, key=...)] is stable; with [reverse=True] elements that
    compare equal still keep their original order, which is the stable sort
    for the flipped comparison. *)
Section StableSort.
Context {A : Type} (cmp : A -> A -> comparison).

Fixpoint insert_sorted (x : A) (l : list A) : list A :=
  match l with
  | [] => [x]
  | y :: r =>
      match cmp y x with
      | Lt => y :: insert_sorted x r
      | _ => x :: y :: r
      end
  end.

Definition py_sorted (l : list A) : list A := fold_right insert_sorted [] l.

Lemma insert_sorted_perm x l : Permutation (insert_sorted x l) (x :: l).
Proof.
  induction l as [|y r IH]; simpl; auto.
  destruct (cmp y x); auto.
  rewrite IH. apply perm_swap.
Qed.

Lemma py_sorted_perm l : Permutation (py_sorted l) l.
Proof.
  induction l as [|x l IH]; simpl; auto.
  rewrite insert_sorted_perm. now constructor.
Qed.

Definition cmp_le (a b : A) : Prop := cmp a b <> Gt.

Hypothesis cmp_antisym : forall a b, cmp a b = CompOpp (cmp b a).

Lemma insert_sorted_HdRel x y l :
  cmp_le y x -> HdRel cmp_le y l -> HdRel cmp_le y (insert_sorted x l).
Proof.
  intros Hyx H. destruct l as [|z r]; simpl.
  - now constructor.
  - inversion H; subst. destruct (cmp z x); now constructor.
Qed.

Lemma insert_sorted_Sorted x l :
  Sorted cmp_le l -> Sorted cmp_le (insert_sorted x l).
Proof.
  induction 1 as [|y r Hs IH Hhd]; simpl.
  - repeat constructor.
  - destruct (cmp y x) eqn:E.
    + constructor; [now constructor|]. constructor. unfold cmp_le.
      rewrite cmp_antisym, E. discriminate.
    + constructor; [exact IH|].
      apply insert_sorted_HdRel; auto. unfold cmp_le. rewrite E. discriminate.
    + constructor; [now constructor|]. constructor. unfold cmp_le.
      rewrite cmp_antisym, E. discriminate.
Qed.

Lemma py_sorted_Sorted l : Sorted cmp_le (py_sorted l).
Proof.
  induction l as [|x l IH]; simpl; [constructor|].
  now apply insert_sorted_Sorted.
Qed.
End StableSort.

(** Descending stable sort: [sorted(l, key=..., reverse=True)]. *)
Definition py_sorted_rev {A} (cmp : A -> A -> comparison) (l : list A) : list A :=
  py_sorted (fun a b => cmp b a) l.

(** *** Rational helpers *)

Definition Qgtb (a b : Q) : bool := negb (Qle_bool a b).
Definition Qltb (a b : Q) : bool := negb (Qle_bool b a).
Definition Qgeb (a b : Q) : bool := Qle_bool b a.

(** [max(a, b)] and [min(a, b)] on floats, read over the rationals. *)
Definition qmax (a b : Q) : Q := if Qle_bool a b then b else a.
Definition qmin (a b : Q) : Q := if Qle_bool a b then a else b.

(** [max(lo, min(hi, x))] *)
Definition clamp (lo hi x : Q) : Q := qmax lo (qmin hi x).

Lemma qmax_lub a b c : (a <= c -> b <= c -> qmax a b <= c)%Q.
Proof. unfold qmax. now destruct (Qle_bool a b). Qed.

Lemma qmax_ge_l a b : (a <= qmax a b)%Q.
Proof.
  unfold qmax. destruct (Qle_bool a b) eqn:E.
  - now apply Qle_bool_iff.
  - apply Qle_refl.
Qed.

Lemma qmax_ge_r a b : (b <= qmax a b)%Q.
Proof.
  unfold qmax. destruct (Qle_bool a b) eqn:E.
  - apply Qle_refl.
  - apply Qlt_le_weak, Qnot_le_lt. intros H.
    apply Qle_bool_iff in H. congruence.
Qed.

Lemma qmin_le_l a b : (qmin a b <= a)%Q.
Proof.
  unfold qmin. destruct (Qle_bool a b) eqn:E.
  - apply Qle_refl.
  - apply Qlt_le_weak, Qnot_le_lt. intros H.
    apply Qle_bool_iff in H. congruence.
Qed.

Lemma qmin_le_r a b : (qmin a b <= b)%Q.
Proof.
  unfold qmin. destruct (Qle_bool a b) eqn:E.
  - now apply Qle_bool_iff.
  - apply Qle_refl.
Qed.

Lemma clamp_bounds lo hi x : (lo <= hi -> lo <= clamp lo hi x <= hi)%Q.
Proof.
  intros H. unfold clamp. split.
  - apply qmax_ge_l.
  - apply qmax_lub; [exact H | apply qmin_le_l].
Qed.

Lemma clamp_id lo hi x : (lo <= x -> x <= hi -> clamp lo hi x == x)%Q.
Proof.
  intros H1 H2. unfold clamp, qmin, qmax.
  destruct (Qle_bool hi x) eqn:E.
  - apply Qle_bool_iff in E. destruct (Qle_bool lo hi) eqn:E2.
    + lra.
    + assert (~ (lo <= hi)%Q) by (rewrite <- Qle_bool_iff; congruence). lra.
  - destruct (Qle_bool lo x) eqn:E2; [lra|].
    assert (~ (lo <= x)%Q) by (rewrite <- Qle_bool_iff; congruence). lra.
Qed.

(** ** preference_alignment.py *)

Module Align.

Definition _FUEL_SYNONYMS : dict (list string) :=
  [("petrol", ["petrol"; "gasoline"]);
   ("diesel", ["diesel"]);
   ("electric", ["electric"; "ev"; "battery"]);
   ("cng", ["cng"; "compressed natural gas"]);
   ("hybrid", ["hybrid"])].

Definition _BODY_SYNONYMS : dict (list string) :=
  [("suv", ["suv"; "sport utility vehicle"; "compact suv"; "midsize suv"]);
   ("sedan", ["sedan"; "saloon"]);
   ("hatchback", ["hatchback"; "hatch"]);
   ("muv", ["muv"; "mpv"; "multi utility vehicle"]);
   ("crossover", ["crossover"])].

Definition _TRANSMISSION_SYNONYMS : dict (list string) :=
  [("automatic", ["automatic"; "amt"; "cvt"; "dct"; "ivt"]);
   ("manual", ["manual"; "mt"])].

Definition _FEATURE_SYNONYMS : dict (list string) :=
  [("sunroof", ["sunroof"; "panoramic"; "moonroof"]);
   ("apple carplay android auto", ["apple carplay"; "android auto"; "carplay"]);
   ("automatic climate control", ["automatic climate control"; "climate control"; "auto ac"]);
   ("360 camera", ["360 camera"; "360"; "surround view"; "parking camera"]);
   ("lane assist", ["lane assist"; "lane keep"; "adas"]);
   ("ventilated seats", ["ventilated seats"; "ventilated"]);
   ("wireless charging", ["wireless charging"; "wireless charger"])].

Definition normalize_text (value : pyval) : string :=
  let text := lower (strip (py_str (py_or value (PStr "")))) in
  let text :=
    sub_runs (fun c => negb (is_lower_letter c || is_digit c || is_space c))
             false text in
  strip (sub_runs is_space false text).

Definition normalize_brand (value : pyval) : string := normalize_text value.
Definition normalize_feature (value : pyval) : string := normalize_text value.

Definition nonempty (s : string) : bool := negb (String.eqb s "").

Definition _to_normalized_set (values : list string) : list string :=
  pyset (filter nonempty (map (fun v => normalize_text (PStr v)) values)).

(** [_to_int]: the first run of decimal digits of [str(value)]. *)
Definition _to_int (value : pyval) : option Z :=
  match value with
  | PNone => None
  | _ =>
      match first_digit_run (py_str value) with
      | [] => None
      | ds => Some (digits_value ds)
      end
  end.

Inductive bval :=
| BNum (q : Q)
| BList (l : list string).

Record Alignment := mkAlignment {
  compliant : bool;
  a_hard_failures : list string;
  soft_issues : list string;
  preferred_brand_hit : bool;
  a_alignment_score : Q
}.

(** The pipeline's working unit.  [score], [combined_score] and
    [alignment_score] are [None] while the key is absent from the Python
    dictionary; [hard_failures] is only ever read through
    [.get("hard_failures", [])] or for its truthiness, so an absent key and
    an empty list are the same value here. *)
Record RankedVariant := mkRV {
  car : dict pyval;
  score : option Q;
  combined_score : option Q;
  variant_id : option string;
  details : dict string;
  alignment : option Alignment;
  alignment_score : option Q;
  hard_failures : list string;
  score_breakdown : dict bval
}.

Definition extract_variant_payload (variant_match : RankedVariant) : dict pyval :=
  car variant_match.

Definition extract_brand_from_payload (c : dict pyval) : string :=
  let brand := normalize_brand (dict_get_default c "brand" (PStr "")) in
  if nonempty brand then brand
  else
    let variant_name :=
      normalize_text (py_or (dict_get_default c "variant" (PStr ""))
                            (dict_get_default c "name" (PStr ""))) in
    if nonempty variant_name then first_word variant_name else "".

(** The advanced-controls bundle as [compile_alignment_rules] reads it. *)
Record Controls := mkControls {
  c_brand_mode : option string;
  c_preferred_brands : list string;
  c_blacklisted_brands : list string;
  c_scoring_priorities : dict Q;
  c_price_tolerance : option Q;
  c_must_have_features : list string;
  c_nice_to_have_features : list string
}.

Definition no_controls : Controls := mkControls None [] [] [] None [] [].

Record Preferences := mkPrefs {
  budget : option (Q * Q);
  fuel_type : option string;
  body_type : option string;
  transmission : option string;
  seating : pyval;
  features : list string
}.

Record Rules := mkRules {
  brand_mode : string;
  preferred_brands : list string;
  blacklisted_brands : list string;
  strict_brands : list string;
  hard_preferences : list string;
  strict_budget : bool;
  budget_tolerance : Q;
  must_have_features : list string;
  nice_to_have_features : list string
}.

(** [value not in (None, "", "Any")] for an optional text preference. *)
Definition active_text (o : option string) : bool :=
  match o with
  | None => false
  | Some s => negb (String.eqb s "") && negb (String.eqb s "Any")
  end.

(** [preferences.get(key) not in (None, "", "Any", [])] *)
Definition preference_given (preferences : Preferences) (key : string) : bool :=
  if String.eqb key "fuel_type" then active_text (fuel_type preferences)
  else if String.eqb key "body_type" then active_text (body_type preferences)
  else if String.eqb key "transmission" then active_text (transmission preferences)
  else if String.eqb key "seating" then
    match seating preferences with
    | PNone => false
    | PStr s => negb (String.eqb s "") && negb (String.eqb s "Any")
    | PInt _ => true
    end
  else if String.eqb key "features" then
    match features preferences with [] => false | _ => true end
  else false.

Definition compile_alignment_rules (preferences : Preferences)
           (user_control_config : option Controls)
           (must_have_preferences : list string) : Rules :=
  let controls :=
    match user_control_config with Some c => c | None => no_controls end in
  let brand_mode :=
    lower (match c_brand_mode controls with
           | Some m => if nonempty m then m else "any"
           | None => "any"
           end) in
  let preferred_brands := _to_normalized_set (c_preferred_brands controls) in
  let blacklisted_brands := _to_normalized_set (c_blacklisted_brands controls) in
  let strict_brands :=
    if String.eqb brand_mode "strict" then preferred_brands else [] in
  let scoring_priorities := c_scoring_priorities controls in
  let hard_preferences :=
    fold_left
      (fun hard key =>
         let priority := dict_get_default scoring_priorities key (5 # 10)%Q in
         if Qgeb priority (8 # 10)%Q && preference_given preferences key
         then pyset (hard ++ [key]) else hard)
      ["fuel_type"; "body_type"; "transmission"; "seating"; "features"]
      (pyset must_have_preferences) in
  let budget_priority := dict_get_default scoring_priorities "budget" (5 # 10)%Q in
  let strict_budget := Qgeb budget_priority (8 # 10)%Q in
  let price_tolerance :=
    match c_price_tolerance controls with Some t => t | None => (2 # 10)%Q end in
  let price_tolerance := qmax (2 # 100)%Q (qmin (5 # 10)%Q price_tolerance) in
  let budget_tolerance :=
    if strict_budget then qmin price_tolerance (12 # 100)%Q
    else qmin (qmax (8 # 100)%Q price_tolerance) (3 # 10)%Q in
  mkRules brand_mode preferred_brands blacklisted_brands strict_brands
          hard_preferences strict_budget budget_tolerance
          (_to_normalized_set (c_must_have_features controls))
          (_to_normalized_set (c_nice_to_have_features controls)).

Definition has_strict_constraints (rules : Rules) : bool :=
  match strict_brands rules with [] => false | _ => true end
  || match blacklisted_brands rules with [] => false | _ => true end
  || match must_have_features rules with [] => false | _ => true end
  || strict_budget rules.

Definition _matches_with_synonyms (pref_value actual_value : pyval)
           (synonym_map : dict (list string)) : bool :=
  let pref := normalize_text pref_value in
  let actual := normalize_text actual_value in
  if negb (nonempty pref) || String.eqb pref "any" then true
  else if negb (nonempty actual) then false
  else if contains pref actual || contains actual pref then true
  else
    match find (fun kv => contains (fst kv) pref) synonym_map with
    | Some (_, aliases) => existsb (fun alias => contains alias actual) aliases
    | None => false
    end.

Definition _feature_present (feature_key blob : string) : bool :=
  if negb (nonempty feature_key) then false
  else if contains feature_key blob then true
  else
    let aliases := dict_get_default _FEATURE_SYNONYMS feature_key [feature_key] in
    existsb (fun alias => contains alias blob) aliases.

Definition _flatten_car_text (c : dict pyval) : string :=
  join_space
    (flat_map (fun v => match v with
                        | PNone => []
                        | _ => [lower (py_str v)]
                        end)
              (dict_values c)).

Section Evaluate.

(** Python's built-in [float] applied to a [str]: [Some q] when the text
    is a numeric literal, [None] when [float] raises [ValueError]. *)
Variable float_of_str : string -> option Q.

Definition _to_float (value : pyval) : option Q :=
  match value with
  | PNone => None
  | PInt z => Some (inject_Z z)
  | PStr s => float_of_str s
  end.

(** The four accumulators of [evaluate_variant_alignment]. *)
Record Tally := mkTally {
  t_hard : list string;
  t_soft : list string;
  t_matched : nat;
  t_total : nat
}.

Definition add_hard (t : Tally) (msg : string) : Tally :=
  mkTally (t_hard t ++ [msg]) (t_soft t) (t_matched t) (t_total t).

Definition add_soft (t : Tally) (msg : string) : Tally :=
  mkTally (t_hard t) (t_soft t ++ [msg]) (t_matched t) (t_total t).

Definition count_signal (t : Tally) : Tally :=
  mkTally (t_hard t) (t_soft t) (t_matched t) (S (t_total t)).

Definition count_match (t : Tally) : Tally :=
  mkTally (t_hard t) (t_soft t) (S (t_matched t)) (t_total t).

Definition car_price (c : dict pyval) : option Q :=
  _to_float (dict_get_default c "numeric_price" (dict_get_default c "price" PNone)).

Definition check_brand (rules : Rules) (brand : string) (t : Tally) : Tally :=
  let t :=
    if nonempty brand && str_in brand (pyset (blacklisted_brands rules))
    then add_hard t "blacklisted_brand" else t in
  match pyset (strict_brands rules) with
  | [] => t
  | strict =>
      if negb (str_in brand strict) then add_hard t "brand_not_in_strict_list"
      else t
  end.

Definition check_budget (rules : Rules) (preferences : Preferences)
           (c : dict pyval) (t : Tally) : Tally :=
  match budget preferences with
  | None => t
  | Some (min_budget, max_budget) =>
      match car_price c with
      | None => t
      | Some price =>
          if Qeq_bool max_budget 0 then t
          else
            let t := count_signal t in
            let t :=
              if Qgtb price (max_budget * (1 + budget_tolerance rules))%Q then
                if str_in "budget" (pyset (hard_preferences rules))
                   || strict_budget rules
                then add_hard t "budget_overflow"
                else add_soft t "budget_overflow_soft"
              else count_match t in
            if Qltb price (min_budget * (6 # 10))%Q
            then add_soft t "budget_too_low" else t
      end
  end.

(** The fuel, body-type and transmission blocks have one shape. *)
Definition check_text (rules : Rules) (pref : option string) (actual : pyval)
           (synonyms : dict (list string)) (key hard_msg soft_msg : string)
           (t : Tally) : Tally :=
  match pref with
  | Some p =>
      if active_text pref then
        let t := count_signal t in
        if _matches_with_synonyms (PStr p) actual synonyms then count_match t
        else if str_in key (pyset (hard_preferences rules)) then add_hard t hard_msg
        else add_soft t soft_msg
      else t
  | None => t
  end.

Definition check_seating (rules : Rules) (preferences : Preferences)
           (c : dict pyval) (t : Tally) : Tally :=
  match _to_int (seating preferences) with
  | None => t
  | Some pref_seating =>
      if Z.eqb pref_seating 0 then t
      else
        let t := count_signal t in
        let actual_seating :=
          _to_int (dict_get_default c "seating_norm"
                     (dict_get_default c "Seating Capacity" PNone)) in
        let matched :=
          match actual_seating with
          | Some a => Z.leb pref_seating a
          | None => false
          end in
        if matched then count_match t
        else if str_in "seating" (pyset (hard_preferences rules))
        then add_hard t "seating_mismatch"
        else add_soft t "seating_mismatch_soft"
  end.

Definition required_features (rules : Rules) (preferences : Preferences)
  : list string :=
  pyset (must_have_features rules
         ++ (if str_in "features" (pyset (hard_preferences rules))
             then filter nonempty
                    (map (fun f => normalize_feature (PStr f)) (features preferences))
             else [])).

Definition check_features (rules : Rules) (preferences : Preferences)
           (blob : string) (t : Tally) : Tally :=
  fold_left
    (fun t feature =>
       let t := count_signal t in
       if _feature_present feature blob then count_match t
       else add_hard t (String.append "missing_feature:" feature))
    (required_features rules preferences) t.

Definition Qnat (n : nat) : Q := inject_Z (Z.of_nat n).

Definition evaluate_variant_alignment (variant_match : RankedVariant)
           (rules : Rules) (preferences : Preferences) : Alignment :=
  let c := extract_variant_payload variant_match in
  let brand := extract_brand_from_payload c in
  let t := check_brand rules brand (mkTally [] [] 0 0) in
  let preferred_brand_hit :=
    nonempty brand && str_in brand (pyset (preferred_brands rules)) in
  let t := check_budget rules preferences c t in
  let t :=
    check_text rules (fuel_type preferences)
      (dict_get_default c "fuel_type_norm" (dict_get_default c "Fuel Type" (PStr "")))
      _FUEL_SYNONYMS "fuel_type" "fuel_mismatch" "fuel_mismatch_soft" t in
  let t :=
    check_text rules (body_type preferences)
      (dict_get_default c "body_type_norm" (dict_get_default c "Body Type" (PStr "")))
      _BODY_SYNONYMS "body_type" "body_mismatch" "body_mismatch_soft" t in
  let t :=
    check_text rules (transmission preferences)
      (dict_get_default c "transmission_norm"
         (dict_get_default c "Transmission Type" (PStr "")))
      _TRANSMISSION_SYNONYMS "transmission" "transmission_mismatch"
      "transmission_mismatch_soft" t in
  let t := check_seating rules preferences c t in
  let feature_blob := _flatten_car_text c in
  let t := check_features rules preferences feature_blob t in
  let nice_to_have := pyset (nice_to_have_features rules) in
  let nice_hits :=
    length (filter (fun f => _feature_present f feature_blob) nice_to_have) in
  let base_score := (Qnat (t_matched t) / Qnat (Nat.max 1 (t_total t)))%Q in
  let base_score :=
    if preferred_brand_hit then (base_score + (8 # 100))%Q else base_score in
  let base_score :=
    match nice_to_have with
    | [] => base_score
    | _ => (base_score
            + (5 # 100) * (Qnat nice_hits / Qnat (Nat.max 1 (length nice_to_have))))%Q
    end in
  let base_score := (base_score - (3 # 100) * Qnat (length (t_soft t)))%Q in
  let alignment_score := qmax 0 (qmin 1 base_score) in
  mkAlignment (Nat.eqb (length (t_hard t)) 0) (t_hard t) (t_soft t)
              preferred_brand_hit alignment_score.

(** The body of the loop of [enforce_alignment_on_ranked_variants]: the
    annotations written into one variant. *)
Definition annotate (rules : Rules) (preferences : Preferences)
           (variant : RankedVariant) : RankedVariant :=
  let al := evaluate_variant_alignment variant rules preferences in
  let score_breakdown :=
    dict_set (dict_set (score_breakdown variant)
                       "alignment_score" (BNum (a_alignment_score al)))
             "hard_failures" (BList (a_hard_failures al)) in
  let boost := (115 # 100)%Q in
  let hit := preferred_brand_hit al in
  mkRV (car variant)
       (if hit then option_map (fun s => (s * boost)%Q) (score variant)
        else score variant)
       (if hit then option_map (fun s => (s * boost)%Q) (combined_score variant)
        else combined_score variant)
       (variant_id variant)
       (details variant)
       (Some al)
       (Some (a_alignment_score al))
       (a_hard_failures al)
       (if hit then dict_set score_breakdown "preferred_brand_boost" (BNum boost)
        else score_breakdown).

Definition is_compliant (variant : RankedVariant) : bool :=
  match alignment variant with
  | Some al => compliant al
  | None => false
  end.

(** [x.get("combined_score", x.get("score", 0.0))] *)
Definition ranking_score (x : RankedVariant) : Q :=
  match combined_score x with
  | Some c => c
  | None => match score x with Some s => s | None => 0%Q end
  end.

Definition alignment_score_of (x : RankedVariant) : Q :=
  match alignment_score x with Some a => a | None => 0%Q end.

(** Comparison of the key tuples, component by component. *)
Definition compliant_cmp (x y : RankedVariant) : comparison :=
  match (alignment_score_of x ?= alignment_score_of y)%Q with
  | Eq => (ranking_score x ?= ranking_score y)%Q
  | c => c
  end.

Definition violated_cmp (x y : RankedVariant) : comparison :=
  match Nat.compare (length (hard_failures x)) (length (hard_failures y)) with
  | Eq =>
      match (- alignment_score_of x ?= - alignment_score_of y)%Q with
      | Eq => (- ranking_score x ?= - ranking_score y)%Q
      | c => c
      end
  | c => c
  end.

Definition compliant_partition (rules : Rules) (preferences : Preferences)
           (ranked_variants : list RankedVariant) : list RankedVariant :=
  py_sorted_rev compliant_cmp
    (filter is_compliant (map (annotate rules preferences) ranked_variants)).

Definition violated_partition (rules : Rules) (preferences : Preferences)
           (ranked_variants : list RankedVariant) : list RankedVariant :=
  py_sorted violated_cmp
    (filter (fun v => negb (is_compliant v))
            (map (annotate rules preferences) ranked_variants)).

Definition enforce_alignment_on_ranked_variants
           (ranked_variants : list RankedVariant) (preferences : Preferences)
           (rules : Rules) (min_results : Z) (allow_relaxation : bool)
  : list RankedVariant :=
  match ranked_variants with
  | [] => []
  | _ =>
      let compliant := compliant_partition rules preferences ranked_variants in
      let violated := violated_partition rules preferences ranked_variants in
      if allow_relaxation && (Z.of_nat (length compliant) <? min_results)%Z then
        let needed :=
          Z.to_nat (Z.max 0 (min_results - Z.of_nat (length compliant))) in
        (compliant ++ firstn needed violated) ++ skipn needed violated
      else if negb allow_relaxation then compliant
      else compliant ++ violated
  end.

(** *** Partition, ordering and permutation facts *)

Lemma filter_partition_perm {A} (f : A -> bool) (l : list A) :
  Permutation (filter f l ++ filter (fun x => negb (f x)) l) l.
Proof.
  induction l as [|x l IH]; simpl; auto.
  destruct (f x); simpl.
  - now constructor.
  - symmetry. apply Permutation_cons_app. now symmetry.
Qed.

Lemma Sorted_weaken {A} (R R' : A -> A -> Prop) (l : list A) :
  (forall a b, R a b -> R' a b) -> Sorted R l -> Sorted R' l.
Proof.
  intros Himp. induction 1 as [|x l Hs IH Hhd]; constructor; auto.
  destruct Hhd; constructor; auto.
Qed.

Lemma violated_cmp_antisym a b : violated_cmp a b = CompOpp (violated_cmp b a).
Proof.
  unfold violated_cmp.
  rewrite (Nat.compare_antisym (length (hard_failures a))).
  rewrite <- (Qcompare_antisym (- alignment_score_of a)).
  rewrite <- (Qcompare_antisym (- ranking_score a)).
  destruct (Nat.compare (length (hard_failures a)) (length (hard_failures b)));
    simpl; auto.
  destruct (- alignment_score_of a ?= - alignment_score_of b)%Q; simpl; auto.
  now rewrite CompOpp_involutive.
Qed.

Lemma violated_cmp_le_failures a b :
  cmp_le violated_cmp a b ->
  length (hard_failures a) <= length (hard_failures b).
Proof.
  unfold cmp_le, violated_cmp. intros H.
  destruct (Nat.compare_spec (length (hard_failures a)) (length (hard_failures b)));
    try lia.
  now contradiction H.
Qed.

Lemma annotate_car rules preferences v : car (annotate rules preferences v) = car v.
Proof. reflexivity. Qed.

Lemma enforce_relaxed_eq ranked preferences rules min_results :
  enforce_alignment_on_ranked_variants ranked preferences rules min_results true
  = compliant_partition rules preferences ranked
    ++ violated_partition rules preferences ranked.
Proof.
  unfold enforce_alignment_on_ranked_variants.
  destruct ranked as [|v r]; [reflexivity|].
  cbv zeta. rewrite andb_true_l.
  destruct (_ <? _)%Z; simpl negb; cbv iota.
  - now rewrite <- app_assoc, firstn_skipn.
  - reflexivity.
Qed.

Lemma partitions_perm ranked preferences rules :
  Permutation (compliant_partition rules preferences ranked
               ++ violated_partition rules preferences ranked)
              (map (annotate rules preferences) ranked).
Proof.
  unfold compliant_partition, violated_partition, py_sorted_rev.
  etransitivity; [|apply (filter_partition_perm is_compliant)].
  apply Permutation_app; apply py_sorted_perm.
Qed.

(** C9.  With relaxation allowed the result is the sorted compliant
    partition followed by the whole sorted violated partition, whatever
    [min_results] is; it is a rearrangement of the annotated input, so
    every input variant (by its payload) is returned exactly once. *)
Theorem relaxed_enforcement_keeps_every_variant
        (ranked : list RankedVariant) (preferences : Preferences)
        (rules : Rules) (min_results : Z) :
  enforce_alignment_on_ranked_variants ranked preferences rules min_results true
  = compliant_partition rules preferences ranked
    ++ violated_partition rules preferences ranked
  /\ Permutation
       (enforce_alignment_on_ranked_variants ranked preferences rules
          min_results true)
       (map (annotate rules preferences) ranked)
  /\ Permutation
       (map car (enforce_alignment_on_ranked_variants ranked preferences rules
                   min_results true))
       (map car ranked)
  /\ length (enforce_alignment_on_ranked_variants ranked preferences rules
               min_results true)
     = length ranked.
Proof.
  rewrite enforce_relaxed_eq.
  pose proof (partitions_perm ranked preferences rules) as HP.
  split; [reflexivity|]. split; [exact HP|]. split.
  - apply (Permutation_map car) in HP. rewrite HP, map_map.
    erewrite map_ext; [reflexivity|]. intros v. apply annotate_car.
  - apply Permutation_length in HP. now rewrite HP, length_map.
Qed.


(** *** The alignment score, as the specification words it

    Each preference dimension yields a signal: [None] when the dimension is
    not active for this request and variant, [Some true] when the variant
    matches it, [Some false] when it does not.  [total_signals] counts the
    active dimensions and [matched_signals] the matched ones. *)

Definition budget_signal (rules : Rules) (preferences : Preferences)
           (c : dict pyval) : option bool :=
  match budget preferences, car_price c with
  | Some (_, max_budget), Some price =>
      if Qeq_bool max_budget 0 then None
      else Some (Qle_bool price (max_budget * (1 + budget_tolerance rules))%Q)
  | _, _ => None
  end.

Definition text_signal (pref : option string) (actual : pyval)
           (synonyms : dict (list string)) : option bool :=
  match pref with
  | Some p =>
      if active_text pref then Some (_matches_with_synonyms (PStr p) actual synonyms)
      else None
  | None => None
  end.

Definition seating_signal (preferences : Preferences) (c : dict pyval)
  : option bool :=
  match _to_int (seating preferences) with
  | Some wanted =>
      if Z.eqb wanted 0 then None
      else
        Some match _to_int (dict_get_default c "seating_norm"
                              (dict_get_default c "Seating Capacity" PNone)) with
             | Some have => Z.leb wanted have
             | None => false
             end
  | None => None
  end.

Definition signals (variant : RankedVariant) (rules : Rules)
           (preferences : Preferences) : list (option bool) :=
  let c := car variant in
  [budget_signal rules preferences c;
   text_signal (fuel_type preferences)
     (dict_get_default c "fuel_type_norm" (dict_get_default c "Fuel Type" (PStr "")))
     _FUEL_SYNONYMS;
   text_signal (body_type preferences)
     (dict_get_default c "body_type_norm" (dict_get_default c "Body Type" (PStr "")))
     _BODY_SYNONYMS;
   text_signal (transmission preferences)
     (dict_get_default c "transmission_norm"
        (dict_get_default c "Transmission Type" (PStr "")))
     _TRANSMISSION_SYNONYMS;
   seating_signal preferences c]
  ++ map (fun f => Some (_feature_present f (_flatten_car_text c)))
         (required_features rules preferences).

Definition total_signals (sigs : list (option bool)) : nat :=
  length (filter (fun s => match s with Some _ => true | None => false end) sigs).

Definition matched_signals (sigs : list (option bool)) : nat :=
  length (filter (fun s => match s with Some true => true | _ => false end) sigs).

Definition nice_to_have_coverage (variant : RankedVariant) (rules : Rules) : Q :=
  let nice := pyset (nice_to_have_features rules) in
  let present :=
    filter (fun f => _feature_present f (_flatten_car_text (car variant))) nice in
  (Qnat (length present) / Qnat (Nat.max 1 (length nice)))%Q.

Definition spec_alignment_score (variant : RankedVariant) (rules : Rules)
           (preferences : Preferences) : Q :=
  let sigs := signals variant rules preferences in
  let brand := extract_brand_from_payload (car variant) in
  let soft :=
    length (soft_issues (evaluate_variant_alignment variant rules preferences)) in
  clamp 0 1
    (Qnat (matched_signals sigs) / Qnat (Nat.max 1 (total_signals sigs))
     + (if str_in brand (preferred_brands rules) then (8 # 100) else 0)
     + (5 # 100) * nice_to_have_coverage variant rules
     - (3 # 100) * Qnat soft)%Q.

(** *** The tally computed by the code agrees with the signals *)

Definition counts (t : Tally) : nat * nat := (t_matched t, t_total t).

Definition count_step (acc : nat * nat) (s : option bool) : nat * nat :=
  match s with
  | None => acc
  | Some true => (S (fst acc), S (snd acc))
  | Some false => (fst acc, S (snd acc))
  end.

Lemma count_step_fold sigs : forall acc,
  fold_left count_step sigs acc
  = (fst acc + matched_signals sigs, snd acc + total_signals sigs).
Proof.
  unfold matched_signals, total_signals.
  induction sigs as [|s sigs IH]; intros [m n]; simpl.
  - f_equal; lia.
  - rewrite IH. destruct s as [[|]|]; simpl; f_equal; lia.
Qed.

Lemma counts_check_brand rules brand t :
  counts (check_brand rules brand t) = counts t.
Proof.
  unfold check_brand.
  destruct (nonempty brand && _); destruct (pyset (strict_brands rules));
    try destruct (negb _); reflexivity.
Qed.

Lemma counts_check_budget rules preferences c t :
  counts (check_budget rules preferences c t)
  = count_step (counts t) (budget_signal rules preferences c).
Proof.
  unfold check_budget, budget_signal, Qgtb.
  destruct (budget preferences) as [[mn mx]|]; [|reflexivity].
  destruct (car_price c) as [price|]; [|reflexivity].
  destruct (Qeq_bool mx 0); [reflexivity|].
  destruct (Qle_bool price _); simpl;
    repeat match goal with |- context [if ?b then _ else _] => destruct b end;
    reflexivity.
Qed.

Lemma counts_check_text rules pref actual synonyms key hard_msg soft_msg t :
  counts (check_text rules pref actual synonyms key hard_msg soft_msg t)
  = count_step (counts t) (text_signal pref actual synonyms).
Proof.
  unfold check_text, text_signal.
  destruct pref as [p|]; [|reflexivity].
  destruct (active_text (Some p)); [|reflexivity].
  destruct (_matches_with_synonyms _ _ _); simpl; [reflexivity|].
  destruct (str_in key _); reflexivity.
Qed.

Lemma counts_check_seating rules preferences c t :
  counts (check_seating rules preferences c t)
  = count_step (counts t) (seating_signal preferences c).
Proof.
  unfold check_seating, seating_signal.
  destruct (_to_int (seating preferences)) as [w|]; [|reflexivity].
  destruct (Z.eqb w 0); [reflexivity|]. cbv zeta.
  match goal with |- context [if ?b then count_match _ else _] => destruct b end;
    simpl; [reflexivity|].
  destruct (str_in "seating" _); reflexivity.
Qed.

Lemma counts_check_features rules preferences blob t :
  counts (check_features rules preferences blob t)
  = fold_left count_step
      (map (fun f => Some (_feature_present f blob))
           (required_features rules preferences))
      (counts t).
Proof.
  unfold check_features.
  generalize (required_features rules preferences) as fs. intros fs. revert t.
  induction fs as [|f fs IH]; intros t; simpl; [reflexivity|].
  rewrite IH. f_equal.
  destruct (_feature_present f blob); reflexivity.
Qed.

Lemma str_in_pyset x l : str_in x (pyset l) = str_in x l.
Proof.
  apply eq_true_iff_eq. rewrite !str_in_In. unfold pyset. apply nodup_In.
Qed.

Lemma clamp_Qeq lo hi x y : (x == y -> clamp lo hi x == clamp lo hi y)%Q.
Proof.
  intros H. unfold clamp, qmin.
  assert (E : Qle_bool hi x = Qle_bool hi y).
  { apply eq_true_iff_eq. rewrite !Qle_bool_iff. now rewrite H. }
  rewrite E. destruct (Qle_bool hi y); [reflexivity|].
  unfold qmax.
  assert (E2 : Qle_bool lo x = Qle_bool lo y).
  { apply eq_true_iff_eq. rewrite !Qle_bool_iff. now rewrite H. }
  rewrite E2. now destruct (Qle_bool lo y).
Qed.

Definition final_tally (variant : RankedVariant) (rules : Rules)
           (preferences : Preferences) : Tally :=
  let c := car variant in
  check_features rules preferences (_flatten_car_text c)
    (check_seating rules preferences c
       (check_text rules (transmission preferences)
          (dict_get_default c "transmission_norm"
             (dict_get_default c "Transmission Type" (PStr "")))
          _TRANSMISSION_SYNONYMS "transmission" "transmission_mismatch"
          "transmission_mismatch_soft"
          (check_text rules (body_type preferences)
             (dict_get_default c "body_type_norm"
                (dict_get_default c "Body Type" (PStr "")))
             _BODY_SYNONYMS "body_type" "body_mismatch" "body_mismatch_soft"
             (check_text rules (fuel_type preferences)
                (dict_get_default c "fuel_type_norm"
                   (dict_get_default c "Fuel Type" (PStr "")))
                _FUEL_SYNONYMS "fuel_type" "fuel_mismatch" "fuel_mismatch_soft"
                (check_budget rules preferences c
                   (check_brand rules (extract_brand_from_payload c)
                      (mkTally [] [] 0 0))))))).

Lemma evaluate_fields variant rules preferences :
  let al := evaluate_variant_alignment variant rules preferences in
  let t := final_tally variant rules preferences in
  a_hard_failures al = t_hard t
  /\ soft_issues al = t_soft t
  /\ compliant al = Nat.eqb (length (t_hard t)) 0
  /\ preferred_brand_hit al
     = nonempty (extract_brand_from_payload (car variant))
       && str_in (extract_brand_from_payload (car variant))
                 (pyset (preferred_brands rules)).
Proof. cbv zeta. repeat split. Qed.

Lemma final_tally_counts variant rules preferences :
  counts (final_tally variant rules preferences)
  = (matched_signals (signals variant rules preferences),
     total_signals (signals variant rules preferences)).
Proof.
  unfold final_tally. cbv zeta.
  rewrite counts_check_features, counts_check_seating, !counts_check_text,
    counts_check_budget, counts_check_brand.
  pose proof (count_step_fold (signals variant rules preferences) (0, 0)) as H.
  simpl in H. exact H.
Qed.

Lemma evaluate_score variant rules preferences :
  a_alignment_score (evaluate_variant_alignment variant rules preferences)
  = let t := final_tally variant rules preferences in
    let brand := extract_brand_from_payload (car variant) in
    let nice := pyset (nice_to_have_features rules) in
    let hits :=
      length (filter (fun f => _feature_present f (_flatten_car_text (car variant)))
                     nice) in
    let base := (Qnat (t_matched t) / Qnat (Nat.max 1 (t_total t)))%Q in
    let base :=
      if nonempty brand && str_in brand (pyset (preferred_brands rules))
      then (base + (8 # 100))%Q else base in
    let base :=
      match nice with
      | [] => base
      | _ => (base + (5 # 100) * (Qnat hits / Qnat (Nat.max 1 (length nice))))%Q
      end in
    clamp 0 1 (base - (3 # 100) * Qnat (length (t_soft t)))%Q.
Proof. reflexivity. Qed.


(** *** Hard failures are never retracted *)

Definition keeps_hard (f : Tally -> Tally) : Prop :=
  forall t msg, In msg (t_hard t) -> In msg (t_hard (f t)).

Lemma add_hard_keeps m : keeps_hard (fun t => add_hard t m).
Proof. intros t msg H. simpl. apply in_or_app. now left. Qed.

Lemma check_budget_keeps rules preferences c :
  keeps_hard (check_budget rules preferences c).
Proof.
  intros t msg H. unfold check_budget.
  destruct (budget preferences) as [[mn mx]|]; auto.
  destruct (car_price c); auto.
  destruct (Qeq_bool mx 0); auto.
  cbv zeta.
  repeat match goal with |- context [if ?b then _ else _] => destruct b end;
    simpl; auto; apply in_or_app; now left.
Qed.

Lemma check_text_keeps rules pref actual synonyms key hard_msg soft_msg :
  keeps_hard (check_text rules pref actual synonyms key hard_msg soft_msg).
Proof.
  intros t msg H. unfold check_text.
  destruct pref; auto. destruct (active_text _); auto. cbv zeta.
  repeat match goal with |- context [if ?b then _ else _] => destruct b end;
    simpl; auto; apply in_or_app; now left.
Qed.

Lemma check_seating_keeps rules preferences c :
  keeps_hard (check_seating rules preferences c).
Proof.
  intros t msg H. unfold check_seating.
  destruct (_to_int (seating preferences)); auto.
  destruct (Z.eqb _ 0); auto. cbv zeta.
  repeat match goal with |- context [if ?b then _ else _] => destruct b end;
    simpl; auto; apply in_or_app; now left.
Qed.

Lemma check_features_keeps rules preferences blob :
  keeps_hard (check_features rules preferences blob).
Proof.
  unfold check_features.
  generalize (required_features rules preferences) as fs.
  induction fs as [|f fs IH]; intros t msg H; simpl; auto.
  apply IH. destruct (_feature_present f blob); simpl; auto.
  apply in_or_app. now left.
Qed.

Lemma check_brand_blacklisted rules brand t :
  brand <> "" -> In brand (blacklisted_brands rules) ->
  In "blacklisted_brand" (t_hard (check_brand rules brand t)).
Proof.
  intros Hne Hin. unfold check_brand.
  assert (E : nonempty brand && str_in brand (pyset (blacklisted_brands rules))
              = true).
  { rewrite str_in_pyset. apply andb_true_intro. split.
    - unfold nonempty. apply negb_true_iff. now apply String.eqb_neq.
    - now apply str_in_In. }
  rewrite E.
  assert (H0 : In "blacklisted_brand" (t_hard (add_hard t "blacklisted_brand")))
    by (simpl; apply in_or_app; right; now left).
  destruct (pyset (strict_brands rules)); [exact H0|].
  destruct (negb _); [|exact H0].
  now apply add_hard_keeps.
Qed.

(** The alignment half of blacklist precedence: a variant whose brand is
    blacklisted is reported non-compliant with a [blacklisted_brand] hard
    failure; membership of the same brand in the preferred set only sets
    [preferred_brand_hit]. *)
Lemma evaluate_blacklisted_brand variant rules preferences :
  let brand := extract_brand_from_payload (car variant) in
  let al := evaluate_variant_alignment variant rules preferences in
  brand <> "" -> In brand (blacklisted_brands rules) ->
  compliant al = false /\ In "blacklisted_brand" (a_hard_failures al).
Proof.
  intros brand al Hne Hin.
  destruct (evaluate_fields variant rules preferences) as (Hh & _ & Hc & _).
  cbv zeta in Hh, Hc. subst al. rewrite Hh, Hc.
  assert (H : In "blacklisted_brand"
                 (t_hard (final_tally variant rules preferences))).
  { unfold final_tally.
    apply check_features_keeps, check_seating_keeps, check_text_keeps,
      check_text_keeps, check_text_keeps, check_budget_keeps.
    now apply check_brand_blacklisted. }
  split; [|exact H].
  destruct (t_hard (final_tally variant rules preferences)); [contradiction|].
  reflexivity.
Qed.

Lemma blacklist_is_strict rules brand :
  In brand (blacklisted_brands rules) -> has_strict_constraints rules = true.
Proof.
  intros H. unfold has_strict_constraints.
  destruct (blacklisted_brands rules); [contradiction|].
  now rewrite orb_true_r.
Qed.

Lemma enforce_strict_subset ranked preferences rules min_results v :
  In v (enforce_alignment_on_ranked_variants ranked preferences rules
          min_results false) ->
  exists v0,
    In v0 ranked /\ v = annotate rules preferences v0 /\ is_compliant v = true.
Proof.
  unfold enforce_alignment_on_ranked_variants.
  destruct ranked as [|r0 rs] eqn:E; [intros []|]. rewrite <- E.
  cbv zeta. simpl andb. simpl negb. cbv iota.
  unfold compliant_partition, py_sorted_rev. intros H.
  apply (Permutation_in _ (py_sorted_perm _ _)) in H.
  apply filter_In in H. destruct H as [H Hc].
  apply in_map_iff in H. destruct H as [v0 [Hv Hin]]. eauto.
Qed.

(** Without relaxation no returned variant carries a blacklisted brand. *)
Lemma enforce_strict_excludes_blacklisted ranked preferences rules min_results v :
  In v (enforce_alignment_on_ranked_variants ranked preferences rules
          min_results false) ->
  extract_brand_from_payload (car v) <> "" ->
  ~ In (extract_brand_from_payload (car v)) (blacklisted_brands rules).
Proof.
  intros H Hne Hb.
  destruct (enforce_strict_subset _ _ _ _ _ H) as (v0 & _ & Hv & Hc).
  subst v. rewrite annotate_car in *.
  destruct (evaluate_blacklisted_brand v0 rules preferences Hne Hb) as [Hf _].
  change (is_compliant (annotate rules preferences v0))
    with (compliant (evaluate_variant_alignment v0 rules preferences)) in Hc.
  congruence.
Qed.

Lemma normalized_set_no_empty values : ~ In "" (_to_normalized_set values).
Proof.
  unfold _to_normalized_set, pyset. rewrite nodup_In, filter_In.
  intros [_ H]. discriminate H.
Qed.

Lemma compiled_rules_no_empty_brand preferences controls must_haves :
  let rules := compile_alignment_rules preferences controls must_haves in
  ~ In "" (preferred_brands rules) /\ ~ In "" (blacklisted_brands rules).
Proof. split; apply normalized_set_no_empty. Qed.

End Evaluate.

(** *** Sample request: petrol SUV, automatic, five seats, 8-15 lakh *)

Definition no_float : string -> option Q := fun _ => None.

Definition sample_variant (name brand : string) (sc : Q) (feats : string)
           (price : Z) : RankedVariant :=
  mkRV [("variant", PStr name); ("brand", PStr brand);
        ("numeric_price", PInt price); ("Fuel Type", PStr "Petrol");
        ("Body Type", PStr "SUV"); ("Transmission Type", PStr "Automatic");
        ("Seating Capacity", PInt 5); ("features_blob", PStr feats)]
       (Some sc) (Some sc) None [] None None [] [].

Definition sample_preferences : Preferences :=
  mkPrefs (Some (inject_Z 800000, inject_Z 1500000))
          (Some "Petrol") (Some "SUV") (Some "Automatic") (PInt 5) [].

(** Toyota is preferred, Maruti is both preferred and blacklisted. *)
Definition sample_controls : Controls :=
  mkControls (Some "preferred") ["Toyota"; "Maruti"] ["Maruti"] []
             (Some (15 # 100)%Q) [] ["Sunroof"].

Definition sample_rules : Rules :=
  compile_alignment_rules sample_preferences (Some sample_controls) ["budget"].

(** Five candidates, none of them compliant: all carry the blacklisted
    brand, and two are over budget as well. *)
Definition all_violating : list RankedVariant :=
  [sample_variant "Maruti Brezza ZXi" "Maruti" 100 "" 1200000;
   sample_variant "Maruti Grand Vitara" "Maruti" 99 "sunroof" 1900000;
   sample_variant "Maruti Fronx" "Maruti" 98 "" 1100000;
   sample_variant "Maruti Jimny" "Maruti" 97 "" 2100000;
   sample_variant "Maruti XL6" "Maruti" 96 "" 1300000].

Example all_violating_none_compliant :
  compliant_partition no_float sample_rules sample_preferences all_violating = []
  /\ map (fun v => length (hard_failures v))
         (enforce_alignment_on_ranked_variants no_float all_violating
            sample_preferences sample_rules 5 true)
     = [1; 1; 1; 2; 2].
Proof. split; vm_compute; reflexivity. Qed.


Definition toyota_hyryder : RankedVariant :=
  sample_variant "Toyota Hyryder V" "Toyota" 90 "panoramic sunroof" 1900000.

Example toyota_hyryder_alignment :
  let al := evaluate_variant_alignment no_float toyota_hyryder sample_rules
              sample_preferences in
  a_hard_failures al = ["budget_overflow"]
  /\ preferred_brand_hit al = true
  /\ (a_alignment_score al == 93 # 100)%Q.
Proof. cbv zeta. repeat split. Qed.


End Align.

(** ** diversity_reranker.py: brand filters and the robust diversity enforcer *)

Module Diversity.

Import Align.

Inductive BrandPreferenceMode := ANY | PREFERRED | STRICT | BLACKLIST.

Definition mode_is_strict (m : BrandPreferenceMode) : bool :=
  match m with STRICT => true | _ => false end.

Definition mode_is_preferred (m : BrandPreferenceMode) : bool :=
  match m with PREFERRED => true | _ => false end.

(** The three attributes of [user_control_config] read by
    [_apply_brand_filters]. *)
Record BrandConfig := mkBrandConfig {
  bc_brand_mode : BrandPreferenceMode;
  bc_preferred_brands : list string;
  bc_blacklisted_brands : list string
}.

Definition normalized_brand_set (brands : list string) : list string :=
  pyset (filter nonempty (map (fun b => normalize_brand (PStr b)) brands)).

Definition filter_brand (variant : RankedVariant) : string :=
  normalize_brand
    (dict_get_default (extract_variant_payload variant) "brand" (PStr "Unknown")).

Definition score_or_zero (variant : RankedVariant) : Q :=
  match score variant with Some s => s | None => 0%Q end.

(** Both score fields multiplied by [factor], as the boost and the demotion
    branches do: [score] is always written, [combined_score] only when the
    key is present. *)
Definition scale_scores (factor : Q) (variant : RankedVariant)
           (new_details : dict string) : RankedVariant :=
  mkRV (car variant)
       (Some (score_or_zero variant * factor)%Q)
       (option_map (fun c => (c * factor)%Q) (combined_score variant))
       (variant_id variant)
       new_details
       (alignment variant) (alignment_score variant) (hard_failures variant)
       (score_breakdown variant).

(** One iteration of the loop of [_apply_brand_filters]: [None] when the
    variant is skipped ([continue] before the append), otherwise the variant
    as appended to [filtered]. *)
Definition brand_filter_step (config : BrandConfig) (variant : RankedVariant)
  : option RankedVariant :=
  let preferred := normalized_brand_set (bc_preferred_brands config) in
  let blacklisted := normalized_brand_set (bc_blacklisted_brands config) in
  let brand := filter_brand variant in
  if nonempty brand && str_in brand blacklisted then None
  else if mode_is_strict (bc_brand_mode config) then
    match preferred with
    | [] => Some variant
    | _ => if negb (str_in brand preferred) then None else Some variant
    end
  else
    match preferred with
    | [] => Some variant
    | _ =>
        if str_in brand preferred then
          Some (scale_scores (135 # 100) variant
                  (dict_set (details variant) "brand_preference"
                            "preferred_brand_boost"))
        else if mode_is_preferred (bc_brand_mode config) then
          Some (scale_scores (92 # 100) variant (details variant))
        else Some variant
    end.

Definition _apply_brand_filters (scored_variants : list RankedVariant)
           (config : BrandConfig) : list RankedVariant :=
  flat_map (fun v => match brand_filter_step config v with
                     | Some v' => [v']
                     | None => []
                     end)
           scored_variants.

(** *** RobustDiversityEnforcer *)

Definition _extract_brand (variant : RankedVariant) : string :=
  lower (py_str (dict_get_default (car variant) "brand" (PStr "Unknown"))).

Definition _variant_key (variant : RankedVariant) : string :=
  let c := car variant in
  let name :=
    py_or (py_or (dict_get_default c "variant" PNone)
                 (dict_get_default c "name" PNone))
          (PStr "") in
  let name :=
    if py_truthy name then name
    else py_or (match variant_id variant with
                | Some s => PStr s
                | None => PStr ""
                end)
               (PStr "") in
  lower (strip (py_str name)).

(** [key=lambda x: x.get('combined_score', x.get('score', 0))] *)
Definition score_cmp (x y : RankedVariant) : comparison :=
  (ranking_score x ?= ranking_score y)%Q.

Definition sort_by_score_desc (l : list RankedVariant) : list RankedVariant :=
  py_sorted_rev score_cmp l.

(** [variants_by_brand]: a [defaultdict(list)] filled in input order, each
    list then sorted by descending score. *)
Definition group_by_brand (variants : list RankedVariant)
  : dict (list RankedVariant) :=
  fold_left
    (fun d v =>
       let brand := _extract_brand v in
       dict_set d brand (dict_get_default d brand [] ++ [v]))
    variants [].

Definition sorted_groups (variants : list RankedVariant)
  : dict (list RankedVariant) :=
  map (fun kv => (fst kv, sort_by_score_desc (snd kv))) (group_by_brand variants).

(** State of the selection loops.  [brand_counts] is a [defaultdict(int)]. *)
Record Selection := mkSelection {
  selected : list RankedVariant;
  selected_keys : list string;
  brand_counts : dict nat
}.

Definition count_of (counts : dict nat) (brand : string) : nat :=
  dict_get_default counts brand 0.

Definition select (st : Selection) (brand : string) (variant : RankedVariant)
  : Selection :=
  mkSelection (selected st ++ [variant])
              (selected_keys st ++ [_variant_key variant])
              (dict_set (brand_counts st) brand (S (count_of (brand_counts st) brand))).

(** One iteration of the [for brand, brand_variants in ...items()] loop of
    the round-robin pass; the boolean is [found_any].  After the first
    [break] on [len(selected) >= top_k] the remaining iterations are no-ops
    here, because the test stays true. *)
Definition round_step (top_k max_per_brand : nat)
           (acc : Selection * bool) (entry : string * list RankedVariant)
  : Selection * bool :=
  let (st, found_any) := acc in
  let (brand, brand_variants) := entry in
  if top_k <=? length (selected st) then acc
  else if max_per_brand <=? count_of (brand_counts st) brand then acc
  else
    match find (fun v => negb (str_in (_variant_key v) (selected_keys st)))
               brand_variants with
    | Some variant => (select st brand variant, true)
    | None => acc
    end.

(** The [while len(selected) < top_k] loop.  [fuel] bounds the number of
    rounds; the loop itself stops once [round_num > top_k * 2], so
    [2 * top_k + 1] rounds are never exceeded. *)
Fixpoint round_robin (fuel : nat) (top_k max_per_brand : nat)
         (by_brand : dict (list RankedVariant)) (round_num : nat)
         (st : Selection) : Selection :=
  match fuel with
  | 0 => st
  | S fuel' =>
      if length (selected st) <? top_k then
        let (st', found_any) :=
          fold_left (round_step top_k max_per_brand) by_brand (st, false) in
        if negb found_any then st'
        else if top_k * 2 <? S round_num then st'
        else round_robin fuel' top_k max_per_brand by_brand (S round_num) st'
      else st
  end.

Definition brand_occurrences (brand : string) (l : list RankedVariant) : nat :=
  length (filter (fun v => String.eqb (_extract_brand v) brand) l).

(** [new_selected]: the first selected variant of every brand. *)
Fixpoint first_of_each_brand (l : list RankedVariant) (brands_used : list string)
  : list RankedVariant * list string :=
  match l with
  | [] => ([], brands_used)
  | v :: r =>
      let brand := _extract_brand v in
      if str_in brand brands_used then first_of_each_brand r brands_used
      else
        let (rest, used) := first_of_each_brand r (brands_used ++ [brand]) in
        (v :: rest, used)
  end.

Definition _remove_duplicate_brands (selected : list RankedVariant)
           (variants_by_brand : dict (list RankedVariant)) (top_k : nat)
  : list RankedVariant :=
  let duplicates :=
    existsb (fun v => 1 <? brand_occurrences (_extract_brand v) selected) selected in
  if negb duplicates then selected
  else
    let (new_selected, brands_used) := first_of_each_brand selected [] in
    let remaining_slots := top_k - length new_selected in
    let filled :=
      fold_left
        (fun (acc : list RankedVariant * nat) (entry : string * list RankedVariant) =>
           let (sel, slots) := acc in
           let (brand, brand_variants) := entry in
           if str_in brand brands_used then acc
           else if slots =? 0 then acc
           else match brand_variants with
                | v :: _ => (sel ++ [v], slots - 1)
                | [] => acc
                end)
        variants_by_brand (new_selected, remaining_slots) in
    firstn top_k (fst filled).

Definition _fill_with_diverse (selected : list RankedVariant)
           (remaining : list RankedVariant) (top_k : nat)
           (brand_counts : dict nat) (max_per_brand : nat)
  : list RankedVariant :=
  fst (fold_left
         (fun (acc : list RankedVariant * dict nat) variant =>
            let (sel, counts) := acc in
            if top_k <=? length sel then acc
            else
              let brand := _extract_brand variant in
              if count_of counts brand <? max_per_brand then
                (sel ++ [variant], dict_set counts brand (S (count_of counts brand)))
              else acc)
         (sort_by_score_desc remaining) (selected, brand_counts)).

(** State of [_maximize_diversity_in_set]: the groups (consumed by
    [pop(0)]), the selection and the per-brand counts. *)
Fixpoint pop_first_open (max_per_brand : nat) (counts : dict nat)
         (groups : dict (list RankedVariant))
  : option (string * RankedVariant * dict (list RankedVariant)) :=
  match groups with
  | [] => None
  | (brand, brand_variants) :: rest =>
      match (count_of counts brand <? max_per_brand), brand_variants with
      | true, v :: vs => Some (brand, v, (brand, vs) :: rest)
      | _, _ =>
          match pop_first_open max_per_brand counts rest with
          | Some (b, v, rest') => Some (b, v, (brand, brand_variants) :: rest')
          | None => None
          end
      end
  end.

Fixpoint maximize_loop (fuel : nat) (total max_per_brand : nat)
         (groups : dict (list RankedVariant)) (sel : list RankedVariant)
         (counts : dict nat) : list RankedVariant :=
  match fuel with
  | 0 => sel
  | S fuel' =>
      if length sel <? total then
        match pop_first_open max_per_brand counts groups with
        | Some (brand, v, groups') =>
            maximize_loop fuel' total max_per_brand groups' (sel ++ [v])
              (dict_set counts brand (S (count_of counts brand)))
        | None => sel ++ concat (dict_values groups)
        end
      else sel
  end.

Definition _maximize_diversity_in_set (variants : list RankedVariant)
           (max_per_brand : nat) : list RankedVariant :=
  maximize_loop (length variants) (length variants) max_per_brand
                (sorted_groups variants) [] [].

(** [top_k] and [max_per_brand] are taken non-negative; [min_brands] is
    accepted and never read, as in the source. *)
Definition enforce_diversity (variants : list RankedVariant)
           (top_k max_per_brand min_brands : nat) : list RankedVariant :=
  match variants with
  | [] => []
  | _ =>
      if length variants <=? top_k
      then _maximize_diversity_in_set variants max_per_brand
      else
        let variants_by_brand := sorted_groups variants in
        let st :=
          round_robin (2 * top_k + 1) top_k max_per_brand variants_by_brand 0
                      (mkSelection [] [] []) in
        let selected :=
          if max_per_brand =? 1
          then _remove_duplicate_brands (selected st) variants_by_brand top_k
          else selected st in
        let selected :=
          if length selected <? top_k then
            let remaining :=
              filter (fun v => negb (str_in (_variant_key v) (selected_keys st)))
                     variants in
            _fill_with_diverse selected remaining top_k (brand_counts st)
                               max_per_brand
          else selected in
        firstn top_k selected
  end.

Definition _enforce_top_k_diversity (variants : list RankedVariant)
           (top_k max_per_brand : nat) : list RankedVariant :=
  enforce_diversity variants top_k max_per_brand 3.

(** The end of [enhance_scoring_with_diversity]: the call of the enforcer
    on [final_variants], the safety backfill from [scored_variants] when
    fewer than five results came back, and the final [[:5]]. *)
Definition final_diversity_pass (final_variants scored_variants : list RankedVariant)
           (effective_max_per_brand : nat) : list RankedVariant :=
  let final := _enforce_top_k_diversity final_variants 5 effective_max_per_brand in
  let final :=
    if (length final <? 5) && (5 <=? length scored_variants) then
      let final_keys := map _variant_key final in
      let remaining :=
        filter (fun v => negb (str_in (_variant_key v) final_keys)) scored_variants in
      final ++ firstn (5 - length final) (sort_by_score_desc remaining)
    else final in
  firstn 5 final.

(** *** Brand cap invariant

    Every selected variant's brand has a positive count, and no brand is
    selected twice. *)

Definition capped (sel : list RankedVariant) (counts : dict nat) : Prop :=
  NoDup (map _extract_brand sel)
  /\ forall v, In v sel -> 1 <= count_of counts (_extract_brand v).

Definition grouped (groups : dict (list RankedVariant)) : Prop :=
  Forall (fun kv => Forall (fun v => _extract_brand v = fst kv) (snd kv)) groups.

Lemma count_of_set_eq counts b n : count_of (dict_set counts b n) b = n.
Proof. unfold count_of, dict_get_default. now rewrite dict_get_set_eq. Qed.

Lemma count_of_set_neq counts b b' n :
  b <> b' -> count_of (dict_set counts b n) b' = count_of counts b'.
Proof.
  intros H. unfold count_of, dict_get_default. now rewrite dict_get_set_neq.
Qed.

Lemma capped_add sel counts v :
  capped sel counts ->
  count_of counts (_extract_brand v) = 0 ->
  capped (sel ++ [v])
         (dict_set counts (_extract_brand v)
                   (S (count_of counts (_extract_brand v)))).
Proof.
  intros [Hnd Hpos] H0. split.
  - rewrite map_app. simpl.
    apply Permutation_NoDup with (l := _extract_brand v :: map _extract_brand sel).
    + apply Permutation_cons_append.
    + constructor; [|exact Hnd].
      intros Hin. apply in_map_iff in Hin. destruct Hin as [w [Hw Hin]].
      apply Hpos in Hin. rewrite Hw in Hin. lia.
  - intros w Hin. apply in_app_or in Hin. destruct Hin as [Hin|[Hin|[]]].
    + destruct (string_dec (_extract_brand v) (_extract_brand w)) as [E|E].
      * rewrite <- E, count_of_set_eq. lia.
      * rewrite count_of_set_neq by exact E. now apply Hpos.
    + subst w. rewrite count_of_set_eq. lia.
Qed.

Lemma round_step_capped top_k groups_entry acc :
  Forall (fun v => _extract_brand v = fst groups_entry) (snd groups_entry) ->
  capped (selected (fst acc)) (brand_counts (fst acc)) ->
  let acc' := round_step top_k 1 acc groups_entry in
  capped (selected (fst acc')) (brand_counts (fst acc')).
Proof.
  intros Hg Hc. destruct acc as [st found], groups_entry as [brand bvs].
  simpl in *. destruct (top_k <=? length (selected st)); [exact Hc|].
  destruct (count_of (brand_counts st) brand) as [|n] eqn:E; [|exact Hc].
  simpl.
  destruct (find _ bvs) as [v|] eqn:F; [|exact Hc].
  apply find_some in F. destruct F as [Hin _].
  rewrite Forall_forall in Hg. specialize (Hg v Hin). subst brand.
  unfold select. cbn [fst selected brand_counts]. apply capped_add; assumption.
Qed.

Lemma round_pass_capped top_k groups : forall acc,
  grouped groups ->
  capped (selected (fst acc)) (brand_counts (fst acc)) ->
  let acc' := fold_left (round_step top_k 1) groups acc in
  capped (selected (fst acc')) (brand_counts (fst acc')).
Proof.
  induction groups as [|entry groups IH]; intros acc Hg Hc; simpl; [exact Hc|].
  inversion Hg; subst. apply IH; [assumption|].
  now apply round_step_capped.
Qed.

Lemma round_robin_capped fuel top_k groups : forall round_num st,
  grouped groups ->
  capped (selected st) (brand_counts st) ->
  let st' := round_robin fuel top_k 1 groups round_num st in
  capped (selected st') (brand_counts st').
Proof.
  induction fuel as [|fuel IH]; intros round_num st Hg Hc; simpl; [exact Hc|].
  destruct (length (selected st) <? top_k); [|exact Hc].
  pose proof (round_pass_capped top_k groups (st, false) Hg Hc) as Hp.
  cbv zeta in Hp.
  destruct (fold_left (round_step top_k 1) groups (st, false)) as [st' found].
  simpl in Hp.
  destruct (negb found); [exact Hp|].
  destruct (top_k * 2 <? S round_num); [exact Hp|].
  now apply IH.
Qed.

Lemma brand_occurrences_NoDup l b :
  NoDup (map _extract_brand l) -> brand_occurrences b l <= 1.
Proof.
  unfold brand_occurrences. induction l as [|v l IH]; simpl; intros H; [lia|].
  inversion H as [|x xs Hnin Hnd]; subst.
  destruct (String.eqb (_extract_brand v) b) eqn:E; simpl; [|now apply IH].
  apply String.eqb_eq in E.
  assert (Hz : filter (fun v0 => String.eqb (_extract_brand v0) b) l = []).
  { destruct (filter _ l) as [|w ws] eqn:F; [reflexivity|].
    assert (Hw : In w (filter (fun v0 => String.eqb (_extract_brand v0) b) l))
      by (rewrite F; now left).
    apply filter_In in Hw. destruct Hw as [Hw1 Hw2].
    apply String.eqb_eq in Hw2. exfalso. apply Hnin.
    rewrite E, <- Hw2. now apply in_map. }
  rewrite Hz. simpl. lia.
Qed.

Lemma remove_duplicates_noop sel groups top_k :
  NoDup (map _extract_brand sel) ->
  _remove_duplicate_brands sel groups top_k = sel.
Proof.
  intros H. unfold _remove_duplicate_brands.
  assert (E : existsb (fun v => 1 <? brand_occurrences (_extract_brand v) sel) sel
              = false).
  { apply not_true_is_false. intros T. apply existsb_exists in T.
    destruct T as [v [_ Hv]]. apply Nat.ltb_lt in Hv.
    pose proof (brand_occurrences_NoDup sel (_extract_brand v) H). lia. }
  now rewrite E.
Qed.

Lemma fill_with_diverse_capped remaining top_k : forall sel counts,
  capped sel counts ->
  NoDup (map _extract_brand
             (fst (fold_left
                     (fun (acc : list RankedVariant * dict nat) variant =>
                        let (sel, counts) := acc in
                        if top_k <=? length sel then acc
                        else
                          let brand := _extract_brand variant in
                          if count_of counts brand <? 1 then
                            (sel ++ [variant],
                             dict_set counts brand (S (count_of counts brand)))
                          else acc)
                     remaining (sel, counts)))).
Proof.
  induction remaining as [|v r IH]; intros sel counts Hc; simpl.
  - exact (proj1 Hc).
  - destruct (top_k <=? length sel); [now apply IH|].
    destruct (count_of counts (_extract_brand v)) as [|n] eqn:E; simpl.
    + apply IH. pose proof (capped_add sel counts v Hc E) as H.
      rewrite E in H. exact H.
    + now apply IH.
Qed.

Lemma NoDup_firstn {A} (n : nat) (l : list A) : NoDup l -> NoDup (firstn n l).
Proof.
  intros H. rewrite <- (firstn_skipn n l) in H.
  now apply NoDup_app_remove_r in H.
Qed.

Lemma group_by_brand_grouped variants : grouped (group_by_brand variants).
Proof.
  unfold group_by_brand.
  assert (G : forall vs d, grouped d ->
              grouped (fold_left
                         (fun d v =>
                            let brand := _extract_brand v in
                            dict_set d brand (dict_get_default d brand [] ++ [v]))
                         vs d)).
  { induction vs as [|v vs IH]; intros d Hd; simpl; [exact Hd|].
    apply IH. clear IH. unfold grouped in *.
    unfold dict_get_default.
    induction d as [|[k l] d IHd]; simpl.
    - repeat constructor.
    - inversion Hd as [|x xs Hx Hxs]; subst. simpl in Hx.
      destruct (String.eqb k (_extract_brand v)) eqn:E; simpl.
      + apply String.eqb_eq in E. constructor; [|exact Hxs]. simpl.
        apply Forall_app. split; [exact Hx|]. constructor; auto.
      + constructor; [exact Hx|]. now apply IHd. }
  apply G. constructor.
Qed.

Lemma sorted_groups_grouped variants : grouped (sorted_groups variants).
Proof.
  unfold sorted_groups, grouped.
  pose proof (group_by_brand_grouped variants) as H. unfold grouped in H.
  induction H as [|[k l] d Hk Hd IH]; simpl; constructor; auto.
  simpl in *. unfold sort_by_score_desc, py_sorted_rev.
  eapply Permutation_Forall; [symmetry; apply py_sorted_perm|exact Hk].
Qed.

(** The brand cap of the main branch of [enforce_diversity], for any
    [top_k]. *)
Lemma enforce_diversity_brand_cap variants top_k min_brands :
  top_k < length variants ->
  NoDup (map _extract_brand (enforce_diversity variants top_k 1 min_brands)).
Proof.
  intros Hlen. unfold enforce_diversity.
  destruct variants as [|v0 vs] eqn:Ev; [simpl in Hlen; lia|]. rewrite <- Ev in *.
  assert (Hle : (length variants <=? top_k) = false)
    by (apply Nat.leb_gt; exact Hlen).
  rewrite Hle. cbv zeta. simpl (1 =? 1).  cbv iota.
  set (groups := sorted_groups variants).
  set (st := round_robin (2 * top_k + 1) top_k 1 groups 0 (mkSelection [] [] [])).
  assert (Hc : capped (selected st) (brand_counts st)).
  { apply round_robin_capped; [apply sorted_groups_grouped|].
    split; [constructor | intros w []]. }
  rewrite remove_duplicates_noop by exact (proj1 Hc).
  rewrite <- firstn_map.
  apply NoDup_firstn.
  destruct (length (selected st) <? top_k).
  - unfold _fill_with_diverse. now apply fill_with_diverse_capped.
  - exact (proj1 Hc).
Qed.

Lemma enforce_diversity_length variants top_k max_per_brand min_brands :
  top_k < length variants ->
  length (enforce_diversity variants top_k max_per_brand min_brands) <= top_k.
Proof.
  intros Hlen. unfold enforce_diversity.
  destruct variants as [|v0 vs] eqn:Ev; [simpl; lia|]. rewrite <- Ev in *.
  assert (Hle : (length variants <=? top_k) = false)
    by (apply Nat.leb_gt; exact Hlen).
  rewrite Hle. cbv zeta. rewrite length_firstn. lia.
Qed.

(** *** With pairwise distinct variant names the first round fills the list *)

Lemma injective_on_members {A B} (f : A -> B) (l : list A) x y :
  NoDup (map f l) -> In x l -> In y l -> f x = f y -> x = y.
Proof.
  induction l as [|a l IH]; simpl; intros Hnd Hx Hy Hf; [contradiction|].
  inversion Hnd as [|b bs Hnin Hnd']; subst.
  destruct Hx as [Hx|Hx], Hy as [Hy|Hy]; subst; auto.
  - exfalso. apply Hnin. rewrite Hf. now apply in_map.
  - exfalso. apply Hnin. rewrite <- Hf. now apply in_map.
Qed.

(** What holds of every group: it is not empty and its members are pool
    variants of the group's brand. *)
Definition well_grouped (pool : list RankedVariant)
           (groups : dict (list RankedVariant)) : Prop :=
  NoDup (dict_keys groups)
  /\ Forall (fun kv =>
               snd kv <> []
               /\ Forall (fun v => In v pool /\ _extract_brand v = fst kv) (snd kv))
            groups.

Lemma Forall_dict_set {V} (P : string * V -> Prop) (d : dict V) k v :
  Forall P d -> P (k, v) -> Forall P (dict_set d k v).
Proof.
  intros Hd Hp. induction Hd as [|[k' v'] r Hk Hr IH]; simpl.
  - now constructor.
  - destruct (String.eqb k' k) eqn:E.
    + apply String.eqb_eq in E. subst. now constructor.
    + now constructor.
Qed.

Lemma Forall_dict_get {V} (P : string * V -> Prop) (d : dict V) k v :
  Forall P d -> dict_get d k = Some v -> P (k, v).
Proof.
  intros Hd. induction Hd as [|[k' v'] r Hk Hr IH]; simpl; [discriminate|].
  destruct (String.eqb k' k) eqn:E; [|exact IH].
  apply String.eqb_eq in E. intros H. inversion H; subst. exact Hk.
Qed.

Lemma group_by_brand_well_grouped pool :
  well_grouped pool (group_by_brand pool)
  /\ forall v, In v pool -> In (_extract_brand v) (dict_keys (group_by_brand pool)).
Proof.
  unfold group_by_brand.
  assert (G : forall vs d,
             (forall v, In v vs -> In v pool) ->
             well_grouped pool d ->
             let d' :=
               fold_left
                 (fun d v =>
                    let brand := _extract_brand v in
                    dict_set d brand (dict_get_default d brand [] ++ [v]))
                 vs d in
             well_grouped pool d'
             /\ (forall b, In b (dict_keys d) \/ In b (map _extract_brand vs) ->
                           In b (dict_keys d'))).
  { induction vs as [|v vs IH]; intros d Hvs [Hnd Hall]; simpl.
    - split; [split; assumption|]. intros b [H|[]]. exact H.
    - set (d1 := dict_set d (_extract_brand v)
                          (dict_get_default d (_extract_brand v) [] ++ [v])).
      assert (W1 : well_grouped pool d1).
      { split; [now apply dict_set_NoDup|].
        apply Forall_dict_set; [exact Hall|]. simpl. split.
        - intros Hc. apply app_eq_nil in Hc. destruct Hc as [_ Hc]. discriminate.
        - apply Forall_app. split.
          + unfold dict_get_default.
            destruct (dict_get d (_extract_brand v)) as [l|] eqn:Eg; [|constructor].
            apply (Forall_dict_get _ _ _ _ Hall Eg).
          + constructor; [|constructor]. split; [apply Hvs; now left|reflexivity]. }
      destruct (IH d1 (fun w Hw => Hvs w (or_intror Hw)) W1) as [W2 C2].
      split; [exact W2|].
      intros b Hb. apply C2.
      destruct Hb as [Hb|[Hb|Hb]]; [| |right; exact Hb].
      + left. destruct (dict_mem d (_extract_brand v)) eqn:Em.
        * unfold d1. now rewrite dict_keys_set_present.
        * unfold d1. rewrite dict_keys_set_absent by exact Em.
          apply in_or_app. now left.
      + left. subst b. eapply dict_get_In_keys. unfold d1. apply dict_get_set_eq. }
  destruct (G pool [] (fun v H => H)) as [W C].
  { split; constructor. }
  split; [exact W|]. intros v Hv. apply C. right. now apply in_map.
Qed.

Lemma sorted_groups_well_grouped pool :
  well_grouped pool (sorted_groups pool)
  /\ forall v, In v pool -> In (_extract_brand v) (dict_keys (sorted_groups pool)).
Proof.
  destruct (group_by_brand_well_grouped pool) as [[Hnd Hall] Hcov].
  assert (Hk : dict_keys (sorted_groups pool) = dict_keys (group_by_brand pool)).
  { unfold sorted_groups, dict_keys. rewrite map_map. reflexivity. }
  split; [split|].
  - now rewrite Hk.
  - unfold sorted_groups. apply Forall_map.
    eapply Forall_impl; [|exact Hall]. intros [k l] [Hne Hm]. simpl in *.
    unfold sort_by_score_desc, py_sorted_rev.
    pose proof (py_sorted_perm (fun a b => score_cmp b a) l) as HP.
    split.
    + intros Hc. rewrite Hc in HP. apply Permutation_nil in HP. contradiction.
    + eapply Permutation_Forall; [symmetry; exact HP | exact Hm].
  - intros v Hv. rewrite Hk. now apply Hcov.
Qed.

(** The selection after the groups of the brands [done] went through one
    round. *)
Definition round_state (pool : list RankedVariant) (top_k : nat)
           (done : list string) (st : Selection) : Prop :=
  length (selected st) = Nat.min top_k (length done)
  /\ selected_keys st = map _variant_key (selected st)
  /\ (forall v, In v (selected st) -> In v pool /\ In (_extract_brand v) done)
  /\ (forall b, ~ In b done -> count_of (brand_counts st) b = 0).

Lemma round_step_state pool top_k done st found brand brand_variants :
  NoDup (map _variant_key pool) ->
  round_state pool top_k done st ->
  ~ In brand done ->
  brand_variants <> [] ->
  Forall (fun v => In v pool /\ _extract_brand v = brand) brand_variants ->
  round_state pool top_k (done ++ [brand])
              (fst (round_step top_k 1 (st, found) (brand, brand_variants))).
Proof.
  intros Hkeys (Hlen & Hk & Hmem & Hcnt) Hnew Hne Hall.
  unfold round_step.
  destruct (top_k <=? length (selected st)) eqn:Efull.
  - apply Nat.leb_le in Efull. simpl. split; [|split; [|split]].
    + rewrite length_app. simpl. lia.
    + exact Hk.
    + intros v Hv. destruct (Hmem v Hv). split; [assumption|].
      apply in_or_app. now left.
    + intros b Hb. apply Hcnt. intros Hc. apply Hb. apply in_or_app. now left.
  - apply Nat.leb_gt in Efull. rewrite (Hcnt brand Hnew). simpl (1 <=? 0).
    cbv iota.
    destruct brand_variants as [|v1 rest]; [contradiction|].
    inversion Hall as [|x xs [Hv1 Hb1] Hrest]; subst x xs.
    assert (Hfresh : negb (str_in (_variant_key v1) (selected_keys st)) = true).
    { apply negb_true_iff. apply not_true_is_false. intros Hin.
      apply str_in_In in Hin. rewrite Hk in Hin. apply in_map_iff in Hin.
      destruct Hin as [w [Hkw Hw]]. destruct (Hmem w Hw) as [Hwp Hwd].
      assert (w = v1) by (eapply injective_on_members; eauto).
      subst w. rewrite Hb1 in Hwd. contradiction. }
    simpl find. rewrite Hfresh. unfold round_state, select.
    cbn [fst selected selected_keys brand_counts].
    split; [|split; [|split]].
    + rewrite !length_app. simpl length. lia.
    + rewrite map_app. simpl. now rewrite Hk.
    + intros v Hv. apply in_app_or in Hv. destruct Hv as [Hv|[Hv|[]]].
      * destruct (Hmem v Hv). split; [assumption|]. apply in_or_app. now left.
      * subst v. split; [assumption|]. apply in_or_app. right. now left.
    + intros b Hb. rewrite count_of_set_neq.
      * apply Hcnt. intros Hc. apply Hb. apply in_or_app. now left.
      * intros Hc. apply Hb. apply in_or_app. right. now left.
Qed.

Lemma round_pass_state pool top_k groups : forall done st found,
  NoDup (map _variant_key pool) ->
  NoDup (done ++ dict_keys groups) ->
  Forall (fun kv =>
            snd kv <> []
            /\ Forall (fun v => In v pool /\ _extract_brand v = fst kv) (snd kv))
         groups ->
  round_state pool top_k done st ->
  round_state pool top_k (done ++ dict_keys groups)
              (fst (fold_left (round_step top_k 1) groups (st, found))).
Proof.
  induction groups as [|[brand bvs] groups IH]; intros done st found Hkeys Hnd Hall Hst.
  - simpl. now rewrite app_nil_r.
  - cbn [fold_left]. inversion Hall as [|x xs [Hne Hm] Hrest]; subst x xs.
    cbn [fst snd] in Hne, Hm.
    change (dict_keys ((brand, bvs) :: groups))
      with (brand :: dict_keys groups) in *.
    assert (Hnew : ~ In brand done).
    { intros Hc. apply NoDup_remove_2 in Hnd. apply Hnd.
      apply in_or_app. now left. }
    pose proof (round_step_state pool top_k done st found brand bvs
                  Hkeys Hst Hnew Hne Hm) as Hst'.
    destruct (round_step top_k 1 (st, found) (brand, bvs)) as [st' found'].
    simpl fst in Hst'.
    replace (done ++ brand :: dict_keys groups)
      with ((done ++ [brand]) ++ dict_keys groups)
      by (now rewrite <- app_assoc).
    apply IH; auto.
    rewrite <- app_assoc. exact Hnd.
Qed.

Lemma round_robin_after_full_round fuel top_k groups st :
  length (selected st) < top_k ->
  length (selected (fst (fold_left (round_step top_k 1) groups (st, false))))
  = top_k ->
  round_robin (S (S fuel)) top_k 1 groups 0 st
  = fst (fold_left (round_step top_k 1) groups (st, false)).
Proof.
  intros Hlt Hfull. simpl round_robin.
  apply Nat.ltb_lt in Hlt. rewrite Hlt.
  destruct (fold_left (round_step top_k 1) groups (st, false)) as [st' found].
  simpl in *. destruct (negb found); [reflexivity|].
  destruct (top_k * 2 <? 1); [reflexivity|].
  rewrite Hfull, Nat.ltb_irrefl. reflexivity.
Qed.

(** With unique variant names and at least [top_k] brands the enforcer
    returns exactly [top_k] variants. *)
Lemma enforce_diversity_full pool top_k min_brands :
  0 < top_k ->
  top_k < length pool ->
  top_k <= length (nodup string_dec (map _extract_brand pool)) ->
  NoDup (map _variant_key pool) ->
  length (enforce_diversity pool top_k 1 min_brands) = top_k.
Proof.
  intros Hpos Hlen Hbrands Hkeys.
  destruct (sorted_groups_well_grouped pool) as [[Hnd Hall] Hcov].
  assert (Hmany : top_k <= length (dict_keys (sorted_groups pool))).
  { etransitivity; [exact Hbrands|].
    apply NoDup_incl_length; [apply NoDup_nodup|].
    intros b Hb. apply nodup_In in Hb. apply in_map_iff in Hb.
    destruct Hb as [v [Hv Hin]]. subst b. now apply Hcov. }
  pose proof (round_pass_state pool top_k (sorted_groups pool) []
                (mkSelection [] [] []) false Hkeys Hnd Hall) as Hst.
  assert (H0 : round_state pool top_k [] (mkSelection [] [] [])).
  { split; [simpl; lia|]. split; [reflexivity|].
    split; [intros v []|]. intros b _. reflexivity. }
  specialize (Hst H0). simpl app in Hst.
  destruct Hst as (Hfull & _).
  rewrite Nat.min_l in Hfull by exact Hmany.
  unfold enforce_diversity.
  destruct pool as [|v0 vs] eqn:Ev; [simpl in Hlen; lia|]. rewrite <- Ev in *.
  assert (Hle : (length pool <=? top_k) = false) by (apply Nat.leb_gt; exact Hlen).
  rewrite Hle. cbv zeta. simpl (1 =? 1). cbv iota.
  replace (2 * top_k + 1) with (S (S (2 * top_k - 1))) by lia.
  rewrite round_robin_after_full_round; [|simpl; lia|exact Hfull].
  set (st := fst (fold_left (round_step top_k 1) (sorted_groups pool)
                            (mkSelection [] [] [], false))) in *.
  assert (Hc : capped (selected st) (brand_counts st)).
  { apply (round_pass_capped top_k (sorted_groups pool) (mkSelection [] [] [], false)).
    - apply sorted_groups_grouped.
    - split; [constructor | intros w []]. }
  rewrite remove_duplicates_noop by exact (proj1 Hc).
  rewrite Hfull, Nat.ltb_irrefl.
  rewrite firstn_all2 by lia. exact Hfull.
Qed.

Lemma final_pass_keeps_full_result final_variants scored_variants max_per_brand :
  length (enforce_diversity final_variants 5 max_per_brand 3) = 5 ->
  final_diversity_pass final_variants scored_variants max_per_brand
  = enforce_diversity final_variants 5 max_per_brand 3.
Proof.
  intros H. unfold final_diversity_pass, _enforce_top_k_diversity. cbv zeta.
  rewrite H. simpl (5 <? 5). simpl andb. cbv iota.
  apply firstn_all2. lia.
Qed.


Definition pool_variant (name brand : string) (sc : Q) : RankedVariant :=
  mkRV [("variant", PStr name); ("brand", PStr brand)]
       (Some sc) (Some sc) None [] None None [] [].

(** Eight candidates of six brands; the three best ones share a brand. *)
Definition sample_pool : list RankedVariant :=
  [pool_variant "Maruti Brezza ZXi" "Maruti" 100;
   pool_variant "Maruti Fronx Alpha" "Maruti" 99;
   pool_variant "Maruti Grand Vitara" "Maruti" 98;
   pool_variant "Hyundai Creta S" "Hyundai" 95;
   pool_variant "Toyota Hyryder V" "Toyota" 90;
   pool_variant "Kia Seltos HTK" "Kia" 88;
   pool_variant "Tata Nexon XZ" "Tata" 85;
   pool_variant "Honda Elevate V" "Honda" 80].

Example sample_pool_top5 :
  map _variant_key (enforce_diversity sample_pool 5 1 3)
  = ["maruti brezza zxi"; "hyundai creta s"; "toyota hyryder v";
     "kia seltos htk"; "tata nexon xz"].
Proof. vm_compute. reflexivity. Qed.

(** Two listings under one name: the round-robin pass takes the name once
    per brand group only, the enforcer comes back with four variants, and
    the backfill then completes the list with the best remaining variant
    whatever its brand. *)
Definition colliding_pool : list RankedVariant :=
  [pool_variant "Maruti Brezza ZXi" "Maruti" 100;
   pool_variant "Maruti Fronx Alpha" "Maruti" 99;
   pool_variant "Hyundai Creta S" "Hyundai" 95;
   pool_variant "Toyota Hyryder V" "Toyota" 90;
   pool_variant "Kia Seltos HTK" "Kia" 88;
   pool_variant "Kia Seltos HTK" "Tata" 85].

Example colliding_pool_backfill :
  map _extract_brand (enforce_diversity colliding_pool 5 1 3)
  = ["maruti"; "hyundai"; "toyota"; "kia"]
  /\ map _extract_brand (final_diversity_pass colliding_pool colliding_pool 1)
     = ["maruti"; "hyundai"; "toyota"; "kia"; "maruti"].
Proof. vm_compute. split; reflexivity. Qed.


(** *** Blacklist precedence *)

Lemma normalized_brand_set_nonempty brands b :
  In b (normalized_brand_set brands) -> nonempty b = true.
Proof.
  unfold normalized_brand_set, pyset. rewrite nodup_In, filter_In. tauto.
Qed.

Lemma brand_filter_drops_blacklisted config variant :
  In (filter_brand variant) (normalized_brand_set (bc_blacklisted_brands config)) ->
  brand_filter_step config variant = None.
Proof.
  intros H. unfold brand_filter_step. cbv zeta.
  rewrite (normalized_brand_set_nonempty _ _ H).
  apply str_in_In in H. now rewrite H.
Qed.

Lemma apply_brand_filters_app l1 l2 config :
  _apply_brand_filters (l1 ++ l2) config
  = _apply_brand_filters l1 config ++ _apply_brand_filters l2 config.
Proof. unfold _apply_brand_filters. apply flat_map_app. Qed.

(** C6.  Blacklist precedence.  A variant whose brand is in both the
    preferred and the blacklisted set is (a) reported by
    [evaluate_variant_alignment] as non-compliant, with a
    [blacklisted_brand] hard failure, so that the alignment enforcer, called
    as the pipeline calls it (relaxation is off whenever a blacklist is
    set), returns no variant of that brand; and (b) skipped by
    [_apply_brand_filters] before the preferred-brand branch is reached:
    the output is the output for the list without that variant, so no
    boosted copy of it exists. *)
Theorem blacklist_wins_over_preference
        (float_of_str : string -> option Q)
        (variant : RankedVariant) (rules : Rules) (preferences : Preferences)
        (config : BrandConfig) (before after : list RankedVariant) :
  (extract_brand_from_payload (car variant) <> "" ->
   In (extract_brand_from_payload (car variant)) (preferred_brands rules) ->
   In (extract_brand_from_payload (car variant)) (blacklisted_brands rules) ->
   compliant (evaluate_variant_alignment float_of_str variant rules preferences)
   = false
   /\ In "blacklisted_brand"
         (a_hard_failures
            (evaluate_variant_alignment float_of_str variant rules preferences))
   /\ forall ranked v,
        In v (enforce_alignment_on_ranked_variants float_of_str ranked
                preferences rules 5 (negb (has_strict_constraints rules))) ->
        extract_brand_from_payload (car v)
        <> extract_brand_from_payload (car variant))
  /\
  (In (filter_brand variant) (normalized_brand_set (bc_preferred_brands config)) ->
   In (filter_brand variant) (normalized_brand_set (bc_blacklisted_brands config)) ->
   brand_filter_step config variant = None
   /\ _apply_brand_filters (before ++ variant :: after) config
      = _apply_brand_filters before config ++ _apply_brand_filters after config).
Proof.
  split.
  - intros Hne _ Hb.
    destruct (evaluate_blacklisted_brand float_of_str variant rules preferences
                Hne Hb) as [H1 H2].
    split; [exact H1|]. split; [exact H2|].
    intros ranked v Hin Heq.
    rewrite (blacklist_is_strict _ _ Hb) in Hin. simpl negb in Hin.
    apply (enforce_strict_excludes_blacklisted float_of_str _ _ _ _ _ Hin);
      rewrite Heq; assumption.
  - intros _ Hb.
    pose proof (brand_filter_drops_blacklisted config variant Hb) as Hd.
    split; [exact Hd|].
    rewrite apply_brand_filters_app. f_equal.
    unfold _apply_brand_filters. simpl. now rewrite Hd.
Qed.

Definition maruti_brezza : RankedVariant :=
  sample_variant "Maruti Brezza ZXi" "Maruti" 100 "" 1200000.

Definition both_lists_config : BrandConfig :=
  mkBrandConfig PREFERRED ["Toyota"; "Maruti"] ["Maruti"].

Example brand_filters_on_conflict :
  map (fun v => (filter_brand v, score v))
      (_apply_brand_filters
         [toyota_hyryder; maruti_brezza;
          sample_variant "Hyundai Creta S" "Hyundai" 95 "" 1200000]
         both_lists_config)
  = [("toyota", Some ((90 * (135 # 100))%Q));
     ("hyundai", Some ((95 * (92 # 100))%Q))].
Proof. vm_compute. reflexivity. Qed.

Lemma blacklist_wins_over_preference_witness :
  compliant (evaluate_variant_alignment no_float maruti_brezza sample_rules
               sample_preferences) = false
  /\ _apply_brand_filters ([toyota_hyryder] ++ maruti_brezza :: []) both_lists_config
     = _apply_brand_filters [toyota_hyryder] both_lists_config
       ++ _apply_brand_filters [] both_lists_config.
Proof.
  destruct (blacklist_wins_over_preference no_float maruti_brezza sample_rules
              sample_preferences both_lists_config [toyota_hyryder] [])
    as [H1 H2].
  assert (Hne : extract_brand_from_payload (car maruti_brezza) <> "")
    by (vm_compute; discriminate).
  assert (Hp : In (extract_brand_from_payload (car maruti_brezza))
                  (preferred_brands sample_rules))
    by (vm_compute; right; now left).
  assert (Hb : In (extract_brand_from_payload (car maruti_brezza))
                  (blacklisted_brands sample_rules))
    by (vm_compute; now left).
  assert (Hp' : In (filter_brand maruti_brezza)
                   (normalized_brand_set (bc_preferred_brands both_lists_config)))
    by (vm_compute; right; now left).
  assert (Hb' : In (filter_brand maruti_brezza)
                   (normalized_brand_set (bc_blacklisted_brands both_lists_config)))
    by (vm_compute; now left).
  split.
  - exact (proj1 (H1 Hne Hp Hb)).
  - exact (proj2 (H2 Hp' Hb')).
Defined.

End Diversity.

(** ** enhanced_filtering.py: [EnhancedFilter.filter_variants] *)

Module Filter.

(** A catalogue row, reduced to what [filter_variants] reads from it.
    [r_numeric_price] and [r_seating] are [None] for a missing value (NaN);
    the text fields hold [str(row.get(...))]; [r_all_values] is the
    lower-cased join of every non-missing cell and [r_feature_columns] the
    cells of the columns whose name contains "feature" or "option". *)
Record Row := mkRow {
  r_variant : string;
  r_numeric_price : option Q;
  r_fuel : string;
  r_body : string;
  r_transmission : string;
  r_seating : option Z;
  r_brand : string;
  r_max_power : string;
  r_all_values : string;
  r_feature_columns : list string
}.

(** The keys of [preferences]; [None] when the key is absent. *)
Record Preferences := mkPreferences {
  p_budget : option (Q * Q);
  p_fuel_type : option string;
  p_body_type : option string;
  p_transmission : option string;
  p_seating : option Z;
  p_features : option (list string);
  p_brand : option string;
  p_performance : option Q
}.

Record Controls := mkControls {
  scoring_priorities : dict Q;
  exploration_rate_set : bool;
  exploration_rate : option Q
}.

Record Context := mkContext {
  must_have_preferences : list string;
  user_control_config : option Controls;
  must_have_features : list string
}.

(** A soft violation: type and severity (the message text is not
    embedded). *)
Record Violation := mkViolation {
  v_type : string;
  v_severity : string
}.

Record SoftViolations := mkSoft {
  sv_variant_id : string;
  sv_variant_name : string;
  sv_violations : list Violation
}.

(** [filtering_details]; the removal buckets keep the variant names. *)
Record Details := mkDetails {
  removed_by_budget : list string;
  removed_by_fuel : list string;
  removed_by_body : list string;
  removed_by_transmission : list string;
  removed_by_seating : list string;
  removed_by_features : list string;
  removed_by_brand : list string;
  removed_by_performance : list string;
  soft_violations : list SoftViolations
}.

Definition no_details : Details := mkDetails [] [] [] [] [] [] [] [] [].

Definition default_priorities : dict Q :=
  [("budget", (5 # 10)%Q); ("fuel_type", (5 # 10)%Q); ("body_type", (5 # 10)%Q);
   ("transmission", (5 # 10)%Q); ("seating", (5 # 10)%Q);
   ("features", (5 # 10)%Q); ("performance", (5 # 10)%Q)].

(** [{**default_priorities, **scoring_priorities}] *)
Definition merge_priorities (overrides : dict Q) : dict Q :=
  fold_left (fun d kv => dict_set d (fst kv) (snd kv)) overrides default_priorities.

Definition priorities (context : Context) : dict Q :=
  match user_control_config context with
  | Some c =>
      if exploration_rate_set c then merge_priorities (scoring_priorities c)
      else default_priorities
  | None => default_priorities
  end.

(** [float(control_data.get('exploration_rate', 0.1) or 0.1)], clamped to
    [0, 0.5]: a missing rate and a rate of zero both become 0.1. *)
Definition effective_exploration_rate (context : Context) : Q :=
  let raw :=
    match user_control_config context with
    | Some c =>
        match exploration_rate c with
        | Some e => if Qeq_bool e 0 then (1 # 10)%Q else e
        | None => (1 # 10)%Q
        end
    | None => (1 # 10)%Q
    end in
  qmax 0 (qmin (5 # 10) raw).

Definition exploration_norm (context : Context) : Q :=
  (effective_exploration_rate context / (5 # 10))%Q.

Definition _priority (context : Context) (key : string) : Q :=
  qmax 0 (qmin 1 (dict_get_default (priorities context) key (5 # 10)%Q)).

Definition _strictness (context : Context) (key : string) : Q :=
  qmax 0 (qmin 1 ((7 # 10) * _priority context key
                  + (3 # 10) * (1 - exploration_norm context)))%Q.

Definition promotable : list string :=
  ["budget"; "fuel_type"; "body_type"; "transmission"; "seating"; "features"].

(** [must_have_prefs] after the promotion loop. *)
Definition must_have_prefs (context : Context) : list string :=
  fold_left
    (fun prefs key =>
       if Qgeb (_strictness context key) (78 # 100) then pyset (prefs ++ [key])
       else prefs)
    promotable (pyset (must_have_preferences context)).

Definition budget_tolerance (context : Context) : Q :=
  qmax (103 # 100)
       (qmin (135 # 100)
             ((103 # 100) + (26 # 100) * exploration_norm context
              + (14 # 100) * (1 - _priority context "budget")))%Q.

Definition first_mapping_match (mappings : dict (list string))
           (pref text : string) : bool :=
  match find (fun kv => contains (fst kv) pref) mappings with
  | Some (_, variants) => existsb (fun v => contains v text) variants
  | None => false
  end.

Definition _fuzzy_fuel_match (pref_fuel variant_fuel : string) : bool :=
  first_mapping_match
    [("petrol", ["petrol"; "gasoline"]);
     ("diesel", ["diesel"]);
     ("cng", ["cng"; "compressed natural gas"]);
     ("electric", ["electric"; "ev"; "battery"])]
    pref_fuel variant_fuel.

Definition _fuzzy_body_match (pref_body variant_body : string) : bool :=
  first_mapping_match
    [("suv", ["suv"; "sport utility vehicle"; "compact suv"; "midsize suv"]);
     ("sedan", ["sedan"; "saloon"]);
     ("hatchback", ["hatchback"; "hatch"]);
     ("muv", ["muv"; "multi utility vehicle"; "mpv"])]
    pref_body variant_body.

Definition _fuzzy_transmission_match (pref_trans variant_trans : string) : bool :=
  first_mapping_match
    [("automatic", ["automatic"; "amt"; "cvt"; "dct"; "ivt"]);
     ("manual", ["manual"; "mt"])]
    pref_trans variant_trans.

Definition _fuzzy_feature_match (feature text : string) : bool :=
  first_mapping_match
    [("sunroof", ["sunroof"; "panoramic"; "moonroof"]);
     ("leather", ["leather"; "leatherette"]);
     ("navigation", ["navigation"; "gps"; "nav"]);
     ("camera", ["camera"; "rear view"; "360"; "parking"]);
     ("cruise", ["cruise control"; "adaptive cruise"]);
     ("keyless", ["keyless"; "smart key"; "push button"]);
     ("wireless", ["wireless"; "wireless charging"]);
     ("android", ["android auto"; "android"]);
     ("apple", ["apple carplay"; "carplay"; "apple"])]
    feature text.

(** [(matched, missing)] *)
Definition _check_features (row : Row) (required_features : list string)
  : list string * list string :=
  let found feature :=
    let feature_lower := lower feature in
    contains feature_lower (r_all_values row)
    || existsb (fun col_value => contains feature_lower (lower col_value))
               (r_feature_columns row)
    || _fuzzy_feature_match feature_lower (r_all_values row) in
  (filter found required_features,
   filter (fun f => negb (found f)) required_features).

Definition _extract_power (power_str : string) : option Z :=
  if String.eqb power_str "" then None
  else
    match first_digit_run power_str with
    | [] => None
    | ds => Some (digits_value ds)
    end.

(** Per-row state: [should_keep], [violation_reasons], and the details
    accumulated so far. *)
Record RowState := mkRowState {
  should_keep : bool;
  violation_reasons : list Violation;
  details : Details
}.

Definition add_violation (st : RowState) (vtype severity : string) : RowState :=
  mkRowState (should_keep st)
             (violation_reasons st ++ [mkViolation vtype severity])
             (details st).

Definition remove_row (st : RowState) (record : Details -> Details) : RowState :=
  mkRowState false (violation_reasons st) (record (details st)).

Definition record_budget (name : string) (d : Details) : Details :=
  mkDetails (removed_by_budget d ++ [name]) (removed_by_fuel d) (removed_by_body d)
            (removed_by_transmission d) (removed_by_seating d)
            (removed_by_features d) (removed_by_brand d)
            (removed_by_performance d) (soft_violations d).

Definition record_fuel (name : string) (d : Details) : Details :=
  mkDetails (removed_by_budget d) (removed_by_fuel d ++ [name]) (removed_by_body d)
            (removed_by_transmission d) (removed_by_seating d)
            (removed_by_features d) (removed_by_brand d)
            (removed_by_performance d) (soft_violations d).

Definition record_body (name : string) (d : Details) : Details :=
  mkDetails (removed_by_budget d) (removed_by_fuel d) (removed_by_body d ++ [name])
            (removed_by_transmission d) (removed_by_seating d)
            (removed_by_features d) (removed_by_brand d)
            (removed_by_performance d) (soft_violations d).

Definition record_transmission (name : string) (d : Details) : Details :=
  mkDetails (removed_by_budget d) (removed_by_fuel d) (removed_by_body d)
            (removed_by_transmission d ++ [name]) (removed_by_seating d)
            (removed_by_features d) (removed_by_brand d)
            (removed_by_performance d) (soft_violations d).

Definition record_seating (name : string) (d : Details) : Details :=
  mkDetails (removed_by_budget d) (removed_by_fuel d) (removed_by_body d)
            (removed_by_transmission d) (removed_by_seating d ++ [name])
            (removed_by_features d) (removed_by_brand d)
            (removed_by_performance d) (soft_violations d).

Definition record_features (name : string) (d : Details) : Details :=
  mkDetails (removed_by_budget d) (removed_by_fuel d) (removed_by_body d)
            (removed_by_transmission d) (removed_by_seating d)
            (removed_by_features d ++ [name]) (removed_by_brand d)
            (removed_by_performance d) (soft_violations d).

Definition record_brand (name : string) (d : Details) : Details :=
  mkDetails (removed_by_budget d) (removed_by_fuel d) (removed_by_body d)
            (removed_by_transmission d) (removed_by_seating d)
            (removed_by_features d) (removed_by_brand d ++ [name])
            (removed_by_performance d) (soft_violations d).

Definition record_performance (name : string) (d : Details) : Details :=
  mkDetails (removed_by_budget d) (removed_by_fuel d) (removed_by_body d)
            (removed_by_transmission d) (removed_by_seating d)
            (removed_by_features d) (removed_by_brand d)
            (removed_by_performance d ++ [name]) (soft_violations d).

Definition record_soft (entry : SoftViolations) (d : Details) : Details :=
  mkDetails (removed_by_budget d) (removed_by_fuel d) (removed_by_body d)
            (removed_by_transmission d) (removed_by_seating d)
            (removed_by_features d) (removed_by_brand d)
            (removed_by_performance d) (soft_violations d ++ [entry]).

Definition severity (context : Context) (key : string) (threshold : Q)
           (above below : string) : string :=
  if Qgeb (_strictness context key) threshold then above else below.

(** 1. budget *)
Definition check_budget (preferences : Preferences) (context : Context)
           (row : Row) (st : RowState) : RowState :=
  match p_budget preferences, r_numeric_price row with
  | Some (_, max_budget), Some price =>
      if str_in "budget" (must_have_prefs context) then
        if Qgtb price max_budget
        then remove_row st (record_budget (r_variant row)) else st
      else if Qgtb price (max_budget * budget_tolerance context)%Q
      then remove_row st (record_budget (r_variant row))
      else if Qgtb price max_budget then add_violation st "budget" "medium"
      else st
  | _, _ => st
  end.

(** The fuel, body-type and transmission blocks (2, 3, 4): substring match
    either way or a fuzzy match; on a mismatch the row is removed when the
    dimension is a must-have and a violation is recorded otherwise. *)
Definition check_text (context : Context) (pref : option string)
           (row_value : string) (fuzzy : string -> string -> bool)
           (key : string) (record : string -> Details -> Details)
           (threshold : Q) (above below : string)
           (row : Row) (st : RowState) : RowState :=
  if should_keep st then
    match pref with
    | Some p =>
        if String.eqb p "Any" then st
        else
          let variant_value := lower row_value in
          let pref_lower := lower p in
          let matched :=
            contains pref_lower variant_value
            || contains variant_value pref_lower
            || fuzzy pref_lower variant_value in
          if matched then st
          else if str_in key (must_have_prefs context)
          then remove_row st (record (r_variant row))
          else add_violation st key (severity context key threshold above below)
    | None => st
    end
  else st.

(** 5. seating *)
Definition check_seating (preferences : Preferences) (context : Context)
           (row : Row) (st : RowState) : RowState :=
  if should_keep st then
    match p_seating preferences, r_seating row with
    | Some required_seats, Some variant_seats =>
        if (variant_seats <? required_seats)%Z then
          if str_in "seating" (must_have_prefs context)
          then remove_row st (record_seating (r_variant row))
          else add_violation st "seating"
                 (severity context "seating" (7 # 10) "high" "medium")
        else st
    | _, _ => st
    end
  else st.

(** 6. features *)
Definition check_features (preferences : Preferences) (context : Context)
           (row : Row) (st : RowState) : RowState :=
  if should_keep st then
    match p_features preferences with
    | Some (f :: fs) =>
        let (matched_features, missing_features) :=
          _check_features row (f :: fs) in
        let missing_must_haves :=
          filter (fun m => negb (str_in m matched_features))
                 (must_have_features context) in
        match missing_must_haves, missing_features with
        | _ :: _, _ => remove_row st (record_features (r_variant row))
        | [], _ :: _ =>
            add_violation st "features"
              (severity context "features" (7 # 10) "high" "medium")
        | [], [] => st
        end
    | _ => st
    end
  else st.

(** 7. brand *)
Definition check_brand (preferences : Preferences) (context : Context)
           (row : Row) (st : RowState) : RowState :=
  if should_keep st then
    match p_brand preferences with
    | Some pref_brand =>
        if negb (String.eqb pref_brand "") && negb (String.eqb pref_brand "Any")
        then
          let pref_brand_lower := lower pref_brand in
          let brand_match :=
            contains pref_brand_lower (lower (r_brand row))
            || contains pref_brand_lower (lower (r_variant row)) in
          if negb brand_match && str_in "brand" (must_have_prefs context)
          then remove_row st (record_brand (r_variant row))
          else st
        else st
    | None => st
    end
  else st.

(** 8. performance *)
Definition check_performance (preferences : Preferences) (context : Context)
           (row : Row) (st : RowState) : RowState :=
  if should_keep st then
    match p_performance preferences with
    | Some perf_score =>
        if Qgtb perf_score 7 then
          match _extract_power (r_max_power row) with
          | Some power_val =>
              if negb (Z.eqb power_val 0) && (power_val <? 120)%Z then
                if Qgeb (_strictness context "performance") (78 # 100)
                then remove_row st (record_performance (r_variant row))
                else add_violation st "performance"
                       (severity context "performance" (65 # 100) "high" "medium")
              else st
          | None => st
          end
        else st
    | None => st
    end
  else st.

Fixpoint replace_spaces (s : string) : string :=
  match s with
  | EmptyString => EmptyString
  | String c r =>
      String (if Ascii.eqb c " "%char then "_"%char else c) (replace_spaces r)
  end.

Definition variant_id_of (row : Row) : string :=
  String.append "variant_" (replace_spaces (r_variant row)).

(** The eight checks on one row, in source order. *)
Definition check_row (preferences : Preferences) (context : Context)
           (row : Row) (d : Details) : RowState :=
  let st := mkRowState true [] d in
  let st := check_budget preferences context row st in
  let st :=
    check_text context (p_fuel_type preferences) (r_fuel row) _fuzzy_fuel_match
      "fuel_type" record_fuel (6 # 10) "medium" "low" row st in
  let st :=
    check_text context (p_body_type preferences) (r_body row) _fuzzy_body_match
      "body_type" record_body (6 # 10) "medium" "low" row st in
  let st :=
    check_text context (p_transmission preferences) (r_transmission row)
      _fuzzy_transmission_match "transmission" record_transmission
      (7 # 10) "high" "medium" row st in
  let st := check_seating preferences context row st in
  let st := check_features preferences context row st in
  let st := check_brand preferences context row st in
  check_performance preferences context row st.

Definition filter_step (preferences : Preferences) (context : Context)
           (acc : list string * Details) (row : Row) : list string * Details :=
  let (kept_variants, d) := acc in
  let st := check_row preferences context row d in
  if should_keep st then
    (kept_variants ++ [variant_id_of row],
     match violation_reasons st with
     | [] => details st
     | reasons =>
         record_soft (mkSoft (variant_id_of row) (r_variant row) reasons)
                     (details st)
     end)
  else (kept_variants, details st).

Definition filter_variants (variants_df : list Row) (preferences : Preferences)
           (context : Context) : list string * Details :=
  fold_left (filter_step preferences context) variants_df ([], no_details).

(** The blend as the specification words it. *)
Definition claimed_strictness (priority exploration : Q) : Q :=
  clamp 0 1 ((68 # 100) * priority + (32 # 100) * (1 - exploration / (5 # 10)))%Q.

(** *** A concrete request: petrol wanted, fuel priority 1, exploration 0.35 *)

Definition keen_on_fuel : Context :=
  mkContext []
            (Some (mkControls [("fuel_type", 1%Q)] true (Some (35 # 100)%Q)))
            [].

Definition wants_petrol : Preferences :=
  mkPreferences None (Some "Petrol") None None None None None None.

Definition diesel_row : Row :=
  mkRow "Tata Nexon XZ Diesel" (Some (inject_Z 1200000)) "Diesel" "SUV" "Manual"
        (Some 5%Z) "Tata" "113 bhp" "tata nexon xz diesel 1200000 diesel suv manual 5"
        [].

Example keen_on_fuel_strictness :
  (_priority keen_on_fuel "fuel_type" == 1)%Q
  /\ (effective_exploration_rate keen_on_fuel == 35 # 100)%Q
  /\ (_strictness keen_on_fuel "fuel_type" == 79 # 100)%Q
  /\ (claimed_strictness 1 (35 # 100) == 776 # 1000)%Q.
Proof. repeat split. Qed.

Example diesel_row_removed :
  filter_variants [diesel_row] wants_petrol keen_on_fuel
  = ([], record_fuel "Tata Nexon XZ Diesel" no_details).
Proof. vm_compute. reflexivity. Qed.

(** *** Strictness and promotion *)

Lemma clamp01_range x : (0 <= qmax 0 (qmin 1 x) <= 1)%Q.
Proof. apply (clamp_bounds 0 1 x). discriminate. Qed.

Lemma priority_range context key : (0 <= _priority context key <= 1)%Q.
Proof. apply clamp01_range. Qed.

Lemma exploration_rate_range context :
  (0 <= effective_exploration_rate context <= 5 # 10)%Q.
Proof.
  unfold effective_exploration_rate. cbv zeta.
  apply (clamp_bounds 0 (5 # 10)). discriminate.
Qed.

Lemma strictness_unclamped context key :
  (_strictness context key
   == (7 # 10) * _priority context key
      + (3 # 10) * (1 - effective_exploration_rate context / (5 # 10)))%Q.
Proof.
  unfold _strictness, exploration_norm.
  pose proof (priority_range context key) as [Hp0 Hp1].
  pose proof (exploration_rate_range context) as [He0 He1].
  apply (clamp_id 0 1); unfold Qdiv;
    change (/ (5 # 10))%Q with (10 # 5)%Q; lra.
Qed.

Lemma promotion_fold context key keys : forall init,
  In key (fold_left
            (fun prefs k =>
               if Qgeb (_strictness context k) (78 # 100)
               then pyset (prefs ++ [k]) else prefs)
            keys init)
  <-> In key init
      \/ (In key keys /\ Qgeb (_strictness context key) (78 # 100) = true).
Proof.
  induction keys as [|k keys IH]; intros init; simpl.
  - tauto.
  - rewrite IH. destruct (Qgeb (_strictness context k) (78 # 100)) eqn:E.
    + unfold pyset. rewrite nodup_In, in_app_iff. simpl. split.
      * intros [[H|[H|[]]]|[H1 H2]]; auto. subst. auto.
      * intros [H|[[H|H] H2]]; auto.
    + split.
      * intros [H|[H1 H2]]; auto.
      * intros [H|[[H|H] H2]]; auto. subst. congruence.
Qed.

Lemma promotion_iff context key :
  In key promotable ->
  (In key (must_have_prefs context)
   <-> In key (must_have_preferences context)
       \/ (78 # 100 <= _strictness context key)%Q).
Proof.
  intros Hk. unfold must_have_prefs. rewrite promotion_fold.
  unfold pyset. rewrite nodup_In. unfold Qgeb. rewrite Qle_bool_iff. tauto.
Qed.

Lemma check_text_mismatch context p row_value fuzzy key record threshold
      above below row st :
  should_keep st = true ->
  p <> "Any" ->
  contains (lower p) (lower row_value)
  || contains (lower row_value) (lower p)
  || fuzzy (lower p) (lower row_value) = false ->
  let st' :=
    check_text context (Some p) row_value fuzzy key record threshold above
               below row st in
  (In key (must_have_prefs context) ->
   should_keep st' = false
   /\ violation_reasons st' = violation_reasons st
   /\ details st' = record (r_variant row) (details st))
  /\ (~ In key (must_have_prefs context) ->
      should_keep st' = true
      /\ violation_reasons st'
         = violation_reasons st
           ++ [mkViolation key (severity context key threshold above below)]
      /\ details st' = details st).
Proof.
  intros Hk Hany Hm. unfold check_text. rewrite Hk.
  apply String.eqb_neq in Hany. rewrite Hany. cbv zeta. rewrite Hm.
  destruct (str_in key (must_have_prefs context)) eqn:E.
  - apply str_in_In in E. split; [intros _; simpl; auto | intros H; contradiction].
  - split.
    + intros H. apply str_in_In in H. congruence.
    + intros _. simpl. auto.
Qed.

Lemma check_seating_mismatch preferences context row st required have :
  should_keep st = true ->
  p_seating preferences = Some required ->
  r_seating row = Some have ->
  (have < required)%Z ->
  let st' := check_seating preferences context row st in
  (In "seating" (must_have_prefs context) ->
   should_keep st' = false
   /\ details st' = record_seating (r_variant row) (details st))
  /\ (~ In "seating" (must_have_prefs context) ->
      should_keep st' = true
      /\ violation_reasons st'
         = violation_reasons st
           ++ [mkViolation "seating"
                 (severity context "seating" (7 # 10) "high" "medium")]).
Proof.
  intros Hk Hp Hr Hlt. unfold check_seating. rewrite Hk, Hp, Hr.
  apply Z.ltb_lt in Hlt. rewrite Hlt.
  destruct (str_in "seating" (must_have_prefs context)) eqn:E.
  - apply str_in_In in E. split; [intros _; simpl; auto | intros H; contradiction].
  - split.
    + intros H. apply str_in_In in H. congruence.
    + intros _. simpl. auto.
Qed.



(** A request with default controls: petrol is preferred but not a
    must-have, so the diesel row is kept with a soft violation. *)
Definition relaxed_context : Context := mkContext [] None [].

Example diesel_row_kept_when_soft :
  filter_variants [diesel_row] wants_petrol relaxed_context
  = (["variant_Tata_Nexon_XZ_Diesel"],
     record_soft
       (mkSoft "variant_Tata_Nexon_XZ_Diesel" "Tata Nexon XZ Diesel"
               [mkViolation "fuel_type" "low"])
       no_details).
Proof. vm_compute. reflexivity. Qed.


End Filter.

(** ** hybrid_graph_coalition.py: personalized PageRank *)

Module PageRank.

Import KG.

Definition EDGE_WEIGHTS : dict Q :=
  [("PREFERS", 1%Q); ("HAS_FEATURE", (9 # 10)%Q); ("SUITABLE_FOR", (85 # 100)%Q);
   ("BETTER_THAN", (7 # 10)%Q); ("INVOLVES_TRADEOFF", (55 # 100)%Q);
   ("SHORTLISTED", (65 # 100)%Q); ("VIEWED", (45 # 100)%Q);
   ("VIOLATES", (25 # 100)%Q); ("REJECTED", (2 # 10)%Q)].

(** Defaults of [HybridGraphCoalition.__init__]. *)
Definition default_damping : Q := (85 # 100)%Q.
Definition default_iterations : nat := 26.

Definition edge_weight (etype : string) : Q :=
  dict_get_default EDGE_WEIGHTS etype (35 # 100)%Q.

Definition has_back_link (etype : string) : bool :=
  str_in etype ["HAS_FEATURE"; "SUITABLE_FOR"; "INVOLVES_TRADEOFF"; "BETTER_THAN"].

Definition append_link (outgoing : dict (list (string * Q))) (src dst : string)
           (w : Q) : dict (list (string * Q)) :=
  dict_set outgoing src (dict_get_default outgoing src [] ++ [(dst, w)]).

(** [_weighted_outgoing]: a [defaultdict(list)] filled edge by edge. *)
Definition _weighted_outgoing (graph : KnowledgeGraph)
  : dict (list (string * Q)) :=
  fold_left
    (fun outgoing edge =>
       let w := edge_weight (edge_type edge) in
       let outgoing := append_link outgoing (source_id edge) (target_id edge) w in
       if has_back_link (edge_type edge)
       then append_link outgoing (target_id edge) (source_id edge)
                        (qmax (2 # 10) (w * (45 # 100)))%Q
       else outgoing)
    (edges graph) [].

(** [nxt[k] += x]; [None] stands for the [KeyError] raised when [k] is not a
    key. *)
Fixpoint dict_add (d : dict Q) (k : string) (x : Q) : option (dict Q) :=
  match d with
  | [] => None
  | (k', v) :: r =>
      if String.eqb k' k then Some ((k', (v + x)%Q) :: r)
      else option_map (cons (k', v)) (dict_add r k x)
  end.

Definition sum_weights (neighbors : list (string * Q)) : Q :=
  fold_right (fun p acc => (snd p + acc)%Q) 0%Q neighbors.

(** The body of [for src in node_ids]. *)
Definition push_from (outgoing : dict (list (string * Q))) (score : dict Q)
           (damping : Q) (nxt : option (dict Q)) (src : string)
  : option (dict Q) :=
  let neighbors := dict_get_default outgoing src [] in
  let src_score := dict_get_default score src 0%Q in
  match neighbors with
  | [] => nxt
  | _ =>
      let total := sum_weights neighbors in
      let norm := if Qeq_bool total 0 then 1%Q else total in
      fold_left
        (fun acc (link : string * Q) =>
           match acc with
           | Some m =>
               dict_add m (fst link) (damping * src_score * (snd link / norm))%Q
           | None => None
           end)
        neighbors nxt
  end.

(** The personalized teleport loop: nodes that are not keys are skipped. *)
Definition teleport (teleport_nodes : list string) (damping teleport_mass : Q)
           (nxt : dict Q) : dict Q :=
  fold_left
    (fun m nid =>
       match dict_add m nid ((1 - damping) * teleport_mass)%Q with
       | Some m' => m'
       | None => m
       end)
    teleport_nodes nxt.

Definition Qofnat (n : nat) : Q := inject_Z (Z.of_nat n).

Definition teleport_nodes_of (graph : KnowledgeGraph) (session_id : string)
  : list string :=
  session_id
  :: map node_id (get_neighbors graph session_id (Some "PREFERS") "outgoing").

(** One pass of the [for _ in range(self.iterations)] loop. *)
Definition one_round (graph : KnowledgeGraph) (session_id : string)
           (damping : Q) (score : dict Q) : option (dict Q) :=
  let node_ids := dict_keys (nodes graph) in
  let n := Qofnat (length node_ids) in
  let outgoing := _weighted_outgoing graph in
  let teleport_nodes := teleport_nodes_of graph session_id in
  let teleport_mass := (1 / Qofnat (Nat.max 1 (length teleport_nodes)))%Q in
  let nxt : dict Q := map (fun nid => (nid, ((1 - damping) / n)%Q)) node_ids in
  match fold_left (push_from outgoing score damping) node_ids (Some nxt) with
  | Some nxt => Some (teleport teleport_nodes damping teleport_mass nxt)
  | None => None
  end.

Fixpoint rounds (graph : KnowledgeGraph) (session_id : string) (damping : Q)
         (iterations : nat) (score : dict Q) : option (dict Q) :=
  match iterations with
  | 0 => Some score
  | S k =>
      match one_round graph session_id damping score with
      | Some nxt => rounds graph session_id damping k nxt
      | None => None
      end
  end.

Definition initial_score (graph : KnowledgeGraph) : dict Q :=
  let node_ids := dict_keys (nodes graph) in
  map (fun nid => (nid, (1 / Qofnat (length node_ids))%Q)) node_ids.

(** The score vector of [_personalized_pagerank] when the loop ends, before
    the division by the maximum.  The outer [option] is [None] when the
    function returns the empty dictionary straight away (no node, or the
    session node is missing); the inner one is [None] on a [KeyError]. *)
Definition scores_before_normalization (graph : KnowledgeGraph)
           (session_id : string) (damping : Q) (iterations : nat)
  : option (option (dict Q)) :=
  match dict_keys (nodes graph) with
  | [] => None
  | _ =>
      if negb (dict_mem (nodes graph) session_id) then None
      else Some (rounds graph session_id damping iterations (initial_score graph))
  end.

Definition max_value (score : dict Q) : Q :=
  match dict_values score with
  | [] => 1%Q
  | v :: vs => fold_left qmax vs v
  end.

Definition _personalized_pagerank (graph : KnowledgeGraph) (session_id : string)
           (damping : Q) (iterations : nat) : option (dict Q) :=
  match scores_before_normalization graph session_id damping iterations with
  | None => Some []
  | Some None => None
  | Some (Some score) =>
      let max_val := max_value score in
      if Qle_bool max_val 0 then Some score
      else Some (map (fun kv => (fst kv, (snd kv / max_val)%Q)) score)
  end.

(** Sum of all node scores. *)
Definition total (score : dict Q) : Q :=
  fold_right (fun kv acc => (snd kv + acc)%Q) 0%Q score.

(** Mass held by the nodes that have at least one weighted out-neighbour. *)
Definition linked_mass (graph : KnowledgeGraph) (score : dict Q) : Q :=
  fold_right
    (fun src acc =>
       match dict_get_default (_weighted_outgoing graph) src [] with
       | [] => acc
       | _ => (dict_get_default score src 0 + acc)%Q
       end)
    0%Q (dict_keys (nodes graph)).

(** Every edge joins two existing nodes. *)
Definition closed (graph : KnowledgeGraph) : Prop :=
  Forall (fun e => In (source_id e) (dict_keys (nodes graph))
                   /\ In (target_id e) (dict_keys (nodes graph)))
         (edges graph).

Definition lonely_user : KnowledgeGraph := build [AddNode n_user].

Example lonely_user_scores :
  match scores_before_normalization lonely_user "user_1" default_damping
                                    default_iterations with
  | Some (Some [(nid, q)]) => nid = "user_1" /\ (q == 3 # 10)%Q
  | _ => False
  end.
Proof. vm_compute. split; reflexivity. Qed.

(** *** Mass bookkeeping for [nxt[k] += x] *)

Definition nonneg (score : dict Q) : Prop :=
  Forall (fun kv => (0 <= snd kv)%Q) score.

Lemma dict_add_spec m k x :
  In k (dict_keys m) ->
  exists m',
    dict_add m k x = Some m'
    /\ dict_keys m' = dict_keys m
    /\ (total m' == total m + x)%Q
    /\ ((0 <= x)%Q -> nonneg m -> nonneg m').
Proof.
  unfold dict_keys.
  induction m as [|[k' v] r IH]; simpl; intros H; [contradiction|].
  destruct (String.eqb k' k) eqn:E.
  - eexists. split; [reflexivity|]. split; [reflexivity|]. split.
    + simpl. ring.
    + intros Hx Hn. inversion Hn; subst. constructor; [simpl in *; lra|assumption].
  - destruct H as [H|H].
    + subst. rewrite String.eqb_refl in E. discriminate.
    + destruct (IH H) as (m' & Hm & Hk & Ht & Hn). rewrite Hm. simpl.
      eexists. split; [reflexivity|]. split; [simpl; now rewrite Hk|]. split.
      * simpl. rewrite Ht. ring.
      * intros Hx Hn'. inversion Hn'; subst. constructor; [assumption|].
        now apply Hn.
Qed.

Lemma push_links c norm links : forall m,
  (forall p, In p links -> In (fst p) (dict_keys m)) ->
  exists m',
    fold_left
      (fun acc (link : string * Q) =>
         match acc with
         | Some m => dict_add m (fst link) (c * (snd link / norm))%Q
         | None => None
         end)
      links (Some m) = Some m'
    /\ dict_keys m' = dict_keys m
    /\ (total m' == total m + c * (sum_weights links / norm))%Q
    /\ ((forall p, In p links -> 0 <= c * (snd p / norm))%Q ->
        nonneg m -> nonneg m').
Proof.
  induction links as [|[dst w] links IH]; intros m Hin; simpl.
  - exists m. split; [reflexivity|]. split; [reflexivity|]. split; [|auto].
    unfold Qdiv. ring.
  - destruct (dict_add_spec m dst (c * (w / norm))%Q) as (m1 & H1 & K1 & T1 & N1).
    { apply (Hin (dst, w)). now left. }
    rewrite H1.
    destruct (IH m1) as (m' & H2 & K2 & T2 & N2).
    { intros p Hp. rewrite K1. apply Hin. now right. }
    exists m'. split; [exact H2|]. split; [congruence|]. split.
    + rewrite T2, T1. unfold Qdiv. ring.
    + intros Hpos Hn. apply N2.
      * intros p Hp. apply Hpos. now right.
      * apply N1; [|exact Hn]. apply (Hpos (dst, w)). now left.
Qed.

Lemma sum_weights_pos links :
  links <> [] -> Forall (fun p => (0 < snd p)%Q) links -> (0 < sum_weights links)%Q.
Proof.
  intros Hne H. induction H as [|p l Hp Hl IH]; [contradiction|].
  simpl. destruct l as [|q l'].
  - simpl. lra.
  - assert (0 < sum_weights (q :: l'))%Q by (apply IH; discriminate). lra.
Qed.

(** What the links of one source node must satisfy. *)
Definition sound_links (keys : list string) (links : list (string * Q)) : Prop :=
  Forall (fun p => (0 < snd p)%Q /\ In (fst p) keys) links.

Lemma push_from_spec outgoing score damping src m :
  sound_links (dict_keys m) (dict_get_default outgoing src []) ->
  exists m',
    push_from outgoing score damping (Some m) src = Some m'
    /\ dict_keys m' = dict_keys m
    /\ (total m'
        == total m
           + damping * match dict_get_default outgoing src [] with
                       | [] => 0
                       | _ => dict_get_default score src 0
                       end)%Q
    /\ ((0 <= damping)%Q -> (0 <= dict_get_default score src 0)%Q ->
        nonneg m -> nonneg m').
Proof.
  intros Hs. unfold push_from. cbv zeta.
  destruct (dict_get_default outgoing src []) as [|l0 ls] eqn:El.
  - exists m. split; [reflexivity|]. split; [reflexivity|]. split; [ring|auto].
  - rewrite <- El in *. set (links := dict_get_default outgoing src []) in *.
    assert (Hpos : (0 < sum_weights links)%Q).
    { apply sum_weights_pos; [rewrite El; discriminate|].
      eapply Forall_impl; [|exact Hs]. simpl. tauto. }
    assert (Hz : Qeq_bool (sum_weights links) 0 = false).
    { apply not_true_is_false. intros T. apply Qeq_bool_iff in T. lra. }
    rewrite Hz.
    destruct (push_links (damping * dict_get_default score src 0)%Q
                         (sum_weights links) links m)
      as (m' & H1 & K1 & T1 & N1).
    { intros p Hp. unfold sound_links in Hs. rewrite Forall_forall in Hs.
      now apply Hs. }
    exists m'. split; [exact H1|]. split; [exact K1|]. split.
    + rewrite T1. field. lra.
    + intros Hd Hsc Hn. apply N1; [|exact Hn].
      intros p Hp. unfold sound_links in Hs. rewrite Forall_forall in Hs.
      destruct (Hs p Hp) as [Hw _].
      apply Qmult_le_0_compat.
      * now apply Qmult_le_0_compat.
      * apply Qle_shift_div_l; [exact Hpos|]. lra.
Qed.

Definition mass_of (outgoing : dict (list (string * Q))) (score : dict Q)
           (ids : list string) : Q :=
  fold_right
    (fun src acc =>
       match dict_get_default outgoing src [] with
       | [] => acc
       | _ => (dict_get_default score src 0 + acc)%Q
       end)
    0%Q ids.

Lemma push_all outgoing score damping ids : forall m,
  (forall src, sound_links (dict_keys m) (dict_get_default outgoing src [])) ->
  exists m',
    fold_left (push_from outgoing score damping) ids (Some m) = Some m'
    /\ dict_keys m' = dict_keys m
    /\ (total m' == total m + damping * mass_of outgoing score ids)%Q
    /\ ((0 <= damping)%Q ->
        (forall src, 0 <= dict_get_default score src 0)%Q ->
        nonneg m -> nonneg m').
Proof.
  induction ids as [|src ids IH]; intros m Hs; simpl.
  - exists m. split; [reflexivity|]. split; [reflexivity|]. split; [ring|auto].
  - destruct (push_from_spec outgoing score damping src m (Hs src))
      as (m1 & H1 & K1 & T1 & N1).
    rewrite H1.
    destruct (IH m1) as (m' & H2 & K2 & T2 & N2).
    { intros src'. rewrite K1. apply Hs. }
    exists m'. split; [exact H2|]. split; [congruence|]. split.
    + rewrite T2, T1.
      destruct (dict_get_default outgoing src []); ring.
    + intros Hd Hsc Hn. apply N2; auto.
Qed.

Lemma constant_vector_total (c : Q) (ids : list string) :
  (total (map (fun nid => (nid, c)) ids) == Qofnat (length ids) * c)%Q.
Proof.
  induction ids as [|k ids IH]; simpl length; simpl total.
  - unfold Qofnat. simpl. ring.
  - rewrite IH. unfold Qofnat. rewrite Nat2Z.inj_succ, <- Z.add_1_r.
    rewrite inject_Z_plus. simpl. ring.
Qed.

Lemma constant_vector_keys (c : Q) (ids : list string) :
  dict_keys (map (fun nid => (nid, c)) ids) = ids.
Proof.
  unfold dict_keys. rewrite map_map. simpl. apply map_id.
Qed.

Lemma constant_vector_nonneg (c : Q) (ids : list string) :
  (0 <= c)%Q -> nonneg (map (fun nid => (nid, c)) ids).
Proof.
  intros H. unfold nonneg. apply Forall_forall. intros kv Hin.
  apply in_map_iff in Hin. destruct Hin as [k [E _]]. now subst.
Qed.

Lemma teleport_spec nodes damping mass : forall m,
  (forall nid, In nid nodes -> In nid (dict_keys m)) ->
  dict_keys (teleport nodes damping mass m) = dict_keys m
  /\ (total (teleport nodes damping mass m)
      == total m + Qofnat (length nodes) * ((1 - damping) * mass))%Q
  /\ ((0 <= (1 - damping) * mass)%Q -> nonneg m ->
      nonneg (teleport nodes damping mass m)).
Proof.
  unfold teleport.
  induction nodes as [|nid nodes IH]; intros m Hin; simpl fold_left.
  - split; [reflexivity|]. split; [|auto]. unfold Qofnat. simpl. ring.
  - destruct (dict_add_spec m nid ((1 - damping) * mass)%Q) as (m1 & H1 & K1 & T1 & N1).
    { apply Hin. now left. }
    rewrite H1.
    destruct (IH m1) as (K2 & T2 & N2).
    { intros n Hn. rewrite K1. apply Hin. now right. }
    split; [congruence|]. split.
    + rewrite T2, T1. simpl length. unfold Qofnat.
      rewrite Nat2Z.inj_succ, <- Z.add_1_r, inject_Z_plus. simpl. ring.
    + intros Hx Hn. apply N2; auto.
Qed.

Lemma lookup_nonneg (score : dict Q) src :
  nonneg score -> (0 <= dict_get_default score src 0)%Q.
Proof.
  unfold dict_get_default, nonneg.
  induction score as [|[k v] r IH]; simpl; intros H; [lra|].
  inversion H; subst. destruct (String.eqb k src); auto.
Qed.

Lemma total_as_lookups (score : dict Q) :
  NoDup (dict_keys score) ->
  (fold_right (fun k acc => dict_get_default score k 0 + acc) 0 (dict_keys score)
   == total score)%Q.
Proof.
  unfold dict_keys, dict_get_default.
  induction score as [|[k v] r IH]; simpl; intros H; [reflexivity|].
  inversion H as [|x xs Hnin Hnd]; subst.
  rewrite String.eqb_refl.
  assert (E : (fold_right
                 (fun k0 acc =>
                    match (if String.eqb k k0 then Some v else dict_get r k0) with
                    | Some v0 => v0
                    | None => 0
                    end + acc) 0 (map fst r)
               == fold_right
                    (fun k0 acc =>
                       match dict_get r k0 with Some v0 => v0 | None => 0 end + acc)
                    0 (map fst r))%Q).
  { clear IH Hnd H. induction (map fst r) as [|k1 ks IHk]; simpl; [reflexivity|].
    destruct (String.eqb k k1) eqn:E1.
    - apply String.eqb_eq in E1. subst. exfalso. apply Hnin. now left.
    - rewrite IHk; [reflexivity|]. intros Hc. apply Hnin. now right. }
  rewrite E, IH by assumption. reflexivity.
Qed.

Lemma mass_of_bounds outgoing score :
  nonneg score ->
  forall ids,
    (0 <= mass_of outgoing score ids
     <= fold_right (fun k acc => dict_get_default score k 0 + acc) 0 ids)%Q.
Proof.
  intros Hn. induction ids as [|k ids IH]; simpl.
  - lra.
  - pose proof (lookup_nonneg score k Hn).
    destruct (dict_get_default outgoing k []); lra.
Qed.

(** *** The link table of a closed graph *)

Lemma lookup_pos (table : dict Q) (key : string) (default : Q) :
  Forall (fun kv => (0 < snd kv)%Q) table -> (0 < default)%Q ->
  (0 < dict_get_default table key default)%Q.
Proof.
  unfold dict_get_default. intros H Hd.
  induction H as [|[k v] r Hv Hr IH]; simpl; [exact Hd|].
  destruct (String.eqb k key); [exact Hv | exact IH].
Qed.

Lemma edge_weight_pos etype : (0 < edge_weight etype)%Q.
Proof.
  unfold edge_weight. apply lookup_pos; [|reflexivity].
  unfold EDGE_WEIGHTS. repeat (constructor; [reflexivity|]). constructor.
Qed.

Lemma append_link_sound keys outgoing src dst w :
  (forall s, sound_links keys (dict_get_default outgoing s [])) ->
  (0 < w)%Q -> In dst keys ->
  forall s, sound_links keys (dict_get_default (append_link outgoing src dst w) s []).
Proof.
  intros Hinv Hw Hd s. unfold append_link, dict_get_default.
  destruct (string_dec src s) as [E|E].
  - subst. rewrite dict_get_set_eq. apply Forall_app. split.
    + apply (Hinv s).
    + constructor; [|constructor]. simpl. auto.
  - rewrite dict_get_set_neq by exact E. apply (Hinv s).
Qed.

Lemma weighted_outgoing_sound graph :
  closed graph ->
  forall s,
    sound_links (dict_keys (nodes graph))
                (dict_get_default (_weighted_outgoing graph) s []).
Proof.
  unfold closed, _weighted_outgoing.
  set (keys := dict_keys (nodes graph)).
  assert (G : forall es out,
             Forall (fun e => In (source_id e) keys /\ In (target_id e) keys) es ->
             (forall s, sound_links keys (dict_get_default out s [])) ->
             forall s,
               sound_links keys
                 (dict_get_default
                    (fold_left
                       (fun outgoing edge =>
                          let w := edge_weight (edge_type edge) in
                          let outgoing :=
                            append_link outgoing (source_id edge) (target_id edge) w in
                          if has_back_link (edge_type edge)
                          then append_link outgoing (target_id edge) (source_id edge)
                                 (qmax (2 # 10) (w * (45 # 100)))%Q
                          else outgoing)
                       es out) s [])).
  { induction es as [|e es IH]; intros out Hes Hout; simpl; [exact Hout|].
    inversion Hes as [|x xs [Hsrc Hdst] Hrest]; subst.
    apply IH; [exact Hrest|].
    assert (H1 : forall s,
               sound_links keys
                 (dict_get_default
                    (append_link out (source_id e) (target_id e)
                                 (edge_weight (edge_type e))) s [])).
    { apply append_link_sound; auto. apply edge_weight_pos. }
    destruct (has_back_link (edge_type e)); [|exact H1].
    apply append_link_sound; auto.
    apply Qlt_le_trans with (y := (2 # 10)%Q); [reflexivity | apply qmax_ge_l]. }
  intros Hc s. apply G; [exact Hc|].
  intros s'. constructor.
Qed.

(** *** Graphs built by [add_node] / [add_edge] *)

Definition consistent (d : dict Node) : Prop :=
  forall k n, dict_get d k = Some n -> node_id n = k.

Lemma built_nodes cs :
  NoDup (dict_keys (nodes (build cs))) /\ consistent (nodes (build cs)).
Proof.
  destruct (fold_calls cs empty) as (Hn & _). fold (build cs) in Hn.
  rewrite Hn. simpl nodes.
  assert (G : forall ns d,
             NoDup (dict_keys d) /\ consistent d ->
             NoDup (dict_keys (fold_left (fun d n => dict_set d (node_id n) n) ns d))
             /\ consistent (fold_left (fun d n => dict_set d (node_id n) n) ns d)).
  { induction ns as [|n ns IH]; intros d [Hd Hc]; simpl; [auto|].
    apply IH. split; [now apply dict_set_NoDup|].
    intros k m Hg. destruct (string_dec (node_id n) k) as [E|E].
    - subst. rewrite dict_get_set_eq in Hg. now inversion Hg.
    - rewrite dict_get_set_neq in Hg by exact E. now apply Hc. }
  apply G. split; [constructor | intros k n H; discriminate H].
Qed.

Lemma teleport_nodes_known graph session_id :
  consistent (nodes graph) ->
  In session_id (dict_keys (nodes graph)) ->
  forall nid, In nid (teleport_nodes_of graph session_id) ->
              In nid (dict_keys (nodes graph)).
Proof.
  intros Hc Hs nid [H|H]; [now subst|].
  apply in_map_iff in H. destruct H as [n [Hid Hn]].
  unfold get_neighbors in Hn.
  apply in_app_or in Hn. destruct Hn as [Hn|Hn].
  - destruct (str_in "outgoing" ["outgoing"; "both"]); [|contradiction].
    unfold nodes_at in Hn. apply in_flat_map in Hn.
    destruct Hn as [e [_ He]].
    destruct (dict_get (nodes graph) (target_id e)) as [m|] eqn:G; [|contradiction].
    destruct He as [He|[]]. subst m.
    rewrite <- Hid, (Hc _ _ G). now apply dict_get_In_keys in G.
  - destruct (str_in "outgoing" ["incoming"; "both"]) eqn:E; [|contradiction].
    vm_compute in E. discriminate E.
Qed.

Lemma Qofnat_pos n : 0 < n -> (0 < Qofnat n)%Q.
Proof. intros H. unfold Qofnat, Qlt. simpl. lia. Qed.

(** One round, on a well-formed closed graph. *)
Lemma one_round_spec graph session_id damping score :
  consistent (nodes graph) ->
  In session_id (dict_keys (nodes graph)) ->
  closed graph ->
  exists nxt,
    one_round graph session_id damping score = Some nxt
    /\ dict_keys nxt = dict_keys (nodes graph)
    /\ (total nxt
        == 2 * (1 - damping) + damping * linked_mass graph score)%Q
    /\ ((0 <= damping <= 1)%Q -> nonneg score -> nonneg nxt).
Proof.
  intros Hc Hs Hcl. unfold one_round. cbv zeta.
  set (ids := dict_keys (nodes graph)) in *.
  set (nodes_t := teleport_nodes_of graph session_id).
  assert (Hlen : 0 < length ids) by (destruct ids; [contradiction | simpl; lia]).
  pose proof (Qofnat_pos _ Hlen) as Hn.
  set (nxt0 := map (fun nid => (nid, ((1 - damping) / Qofnat (length ids))%Q)) ids
               : dict Q).
  destruct (push_all (_weighted_outgoing graph) score damping ids nxt0)
    as (m1 & H1 & K1 & T1 & N1).
  { intros src. unfold nxt0. rewrite constant_vector_keys.
    now apply weighted_outgoing_sound. }
  rewrite H1.
  assert (Kn : dict_keys nxt0 = ids) by apply constant_vector_keys.
  destruct (teleport_spec nodes_t damping
              (1 / Qofnat (Nat.max 1 (length nodes_t)))%Q m1)
    as (K2 & T2 & N2).
  { intros nid Hin. rewrite K1, Kn.
    now apply (teleport_nodes_known graph session_id). }
  eexists. split; [reflexivity|]. split; [congruence|]. split.
  - rewrite T2, T1. unfold nxt0. rewrite constant_vector_total.
    assert (Ht : 0 < length nodes_t) by (simpl; lia).
    replace (Nat.max 1 (length nodes_t)) with (length nodes_t) by lia.
    pose proof (Qofnat_pos _ Ht) as Hm.
    unfold linked_mass, mass_of. fold ids. field. split; lra.
  - intros [Hd0 Hd1] Hsc. apply N2.
    + apply Qmult_le_0_compat; [lra|].
      apply Qle_shift_div_l.
      * apply Qofnat_pos. lia.
      * lra.
    + apply N1; [exact Hd0 | intros src; now apply lookup_nonneg|].
      apply constant_vector_nonneg. apply Qle_shift_div_l; [exact Hn | lra].
Qed.

Lemma rounds_succ graph session_id damping k : forall score,
  rounds graph session_id damping (S k) score
  = match rounds graph session_id damping k score with
    | Some s => one_round graph session_id damping s
    | None => None
    end.
Proof.
  induction k as [|k IH]; intros score.
  - simpl. now destruct (one_round graph session_id damping score).
  - change (rounds graph session_id damping (S (S k)) score)
      with (match one_round graph session_id damping score with
            | Some nxt => rounds graph session_id damping (S k) nxt
            | None => None
            end).
    simpl (rounds graph session_id damping (S k) score).
    destruct (one_round graph session_id damping score) as [nxt|]; [|reflexivity].
    apply IH.
Qed.

Lemma linked_mass_le_total graph score :
  NoDup (dict_keys (nodes graph)) ->
  dict_keys score = dict_keys (nodes graph) ->
  nonneg score ->
  (0 <= linked_mass graph score <= total score)%Q.
Proof.
  intros Hnd Hk Hn. unfold linked_mass.
  pose proof (mass_of_bounds (_weighted_outgoing graph) score Hn
                (dict_keys (nodes graph))) as [H0 H1].
  unfold mass_of in *. split; [exact H0|].
  rewrite <- Hk in H1 at 2. rewrite total_as_lookups in H1; [exact H1|].
  now rewrite Hk.
Qed.

(** The state of the score vector after [k] rounds. *)
Lemma rounds_invariant graph session_id k :
  NoDup (dict_keys (nodes graph)) ->
  consistent (nodes graph) ->
  In session_id (dict_keys (nodes graph)) ->
  closed graph ->
  exists score,
    rounds graph session_id default_damping k (initial_score graph) = Some score
    /\ dict_keys score = dict_keys (nodes graph)
    /\ nonneg score
    /\ (total score <= 2)%Q.
Proof.
  intros Hnd Hc Hs Hcl.
  assert (Hlen : 0 < length (dict_keys (nodes graph)))
    by (destruct (dict_keys (nodes graph)); [contradiction | simpl; lia]).
  pose proof (Qofnat_pos _ Hlen) as Hn.
  induction k as [|k IH].
  - exists (initial_score graph). split; [reflexivity|].
    unfold initial_score. cbv zeta.
    split; [apply constant_vector_keys|]. split.
    + apply constant_vector_nonneg. apply Qle_shift_div_l; [exact Hn | lra].
    + rewrite constant_vector_total.
      setoid_replace (Qofnat (length (dict_keys (nodes graph)))
                      * (1 / Qofnat (length (dict_keys (nodes graph)))))%Q
        with 1%Q by (field; lra).
      discriminate.
  - destruct IH as (score & Hr & Hk & Hnn & Ht).
    destruct (one_round_spec graph session_id default_damping score Hc Hs Hcl)
      as (nxt & H1 & K1 & T1 & N1).
    exists nxt. rewrite rounds_succ, Hr. split; [exact H1|].
    split; [exact K1|]. split.
    + apply N1; [|exact Hnn]. unfold default_damping. split; discriminate.
    + pose proof (linked_mass_le_total graph score Hnd Hk Hnn) as [L0 L1].
      rewrite T1. unfold default_damping in *. lra.
Qed.

Lemma scores_defined graph session_id damping iterations :
  In session_id (dict_keys (nodes graph)) ->
  scores_before_normalization graph session_id damping iterations
  = Some (rounds graph session_id damping iterations (initial_score graph)).
Proof.
  intros Hs. unfold scores_before_normalization.
  apply dict_mem_In_keys in Hs as Hm. rewrite Hm. simpl negb.
  destruct (dict_keys (nodes graph)); [contradiction | reflexivity].
Qed.

(** C3, as stated, fails: for the graph that holds the user node alone the
    scores sum to 0.3 after the 26 rounds (the uniform share 0.15 and the
    personalized teleport share 0.15 are both added in every round, and
    nothing flows along edges). *)
Lemma lonely_user_mass_is_not_one :
  In "user_1" (dict_keys (nodes lonely_user))
  /\ closed lonely_user
  /\ exists score,
       scores_before_normalization lonely_user "user_1" default_damping
                                   default_iterations
       = Some (Some score)
       /\ (total score == 3 # 10)%Q
       /\ ~ (total score == 1)%Q.
Proof.
  split; [now left|]. split; [constructor|].
  pose proof lonely_user_scores as H.
  destruct (scores_before_normalization lonely_user "user_1" default_damping
              default_iterations) as [[[|[nid q] [|kv rest]]|]|];
    try contradiction.
  destruct H as [_ Hq].
  eexists. split; [reflexivity|]. simpl. split.
  - rewrite Hq. reflexivity.
  - rewrite Hq. discriminate.
Qed.

(** C3, amended.  On a graph built by [add_node]/[add_edge] calls that
    contains the session node and whose edges all join existing nodes, the
    power iteration runs without a lookup failure, and every round turns a
    score vector into one whose sum is
    2 * (1 - damping) + damping * (mass on the nodes that have a weighted
    out-link): the uniform base share and the personalized teleport share
    are both added, and the mass of nodes without out-links is dropped.
    With damping 0.85 the sum before max-normalization therefore lies
    between 0.3 and 2 after any positive number of rounds (26 included);
    it is not 1 in general. *)
Theorem pagerank_mass_after_rounds
        (cs : list Call) (session_id : string) (k : nat) :
  In session_id (dict_keys (nodes (build cs))) ->
  closed (build cs) ->
  exists score nxt,
    scores_before_normalization (build cs) session_id default_damping k
    = Some (Some score)
    /\ scores_before_normalization (build cs) session_id default_damping (S k)
       = Some (Some nxt)
    /\ (total nxt
        == 2 * (1 - default_damping)
           + default_damping * linked_mass (build cs) score)%Q
    /\ (0 <= linked_mass (build cs) score <= total score)%Q
    /\ (3 # 10 <= total nxt <= 2)%Q.
Proof.
  intros Hs Hcl.
  destruct (built_nodes cs) as [Hnd Hc].
  destruct (rounds_invariant (build cs) session_id k Hnd Hc Hs Hcl)
    as (score & Hr & Hk & Hnn & Ht).
  destruct (one_round_spec (build cs) session_id default_damping score Hc Hs Hcl)
    as (nxt & H1 & K1 & T1 & N1).
  pose proof (linked_mass_le_total (build cs) score Hnd Hk Hnn) as [L0 L1].
  exists score, nxt.
  rewrite !scores_defined by exact Hs.
  rewrite rounds_succ, Hr, H1.
  split; [reflexivity|]. split; [reflexivity|]. split; [exact T1|].
  split; [split; assumption|].
  rewrite T1. unfold default_damping in *. split; lra.
Qed.

Example calls_a_first_round :
  match scores_before_normalization (build calls_a) "user_1" default_damping 1 with
  | Some (Some score) => (total score == 115 # 100)%Q
  | _ => False
  end.
Proof. vm_compute. reflexivity. Qed.

Lemma pagerank_mass_after_rounds_witness :
  In "user_1" (dict_keys (nodes (build calls_a)))
  /\ closed (build calls_a)
  /\ exists score nxt,
       scores_before_normalization (build calls_a) "user_1" default_damping 25
       = Some (Some score)
       /\ scores_before_normalization (build calls_a) "user_1" default_damping 26
          = Some (Some nxt)
       /\ (total nxt
           == 2 * (1 - default_damping)
              + default_damping * linked_mass (build calls_a) score)%Q
       /\ (0 <= linked_mass (build calls_a) score <= total score)%Q
       /\ (3 # 10 <= total nxt <= 2)%Q.
Proof.
  assert (H1 : In "user_1" (dict_keys (nodes (build calls_a)))) by (now left).
  assert (H2 : closed (build calls_a)).
  { unfold closed. apply Forall_forall. intros e He.
    vm_compute in He.
    repeat (destruct He as [He|He]; [subst e; vm_compute; tauto|]).
    contradiction. }
  split; [exact H1|]. split; [exact H2|].
  exact (pagerank_mass_after_rounds calls_a "user_1" 25 H1 H2).
Defined.

End PageRank.

(** ** recommendation_pipeline.py: the orchestrator's control flow

    [run_recommendation_pipeline] is embedded from the agent execution
    sequence onwards.  What the agents, the external scoring function and
    the rerankers compute is a parameter of the section; what is embedded
    is the order of the calls, the trace, and every [try]/[except]. *)

Module Pipeline.

Inductive Stage :=
| PreferenceExtraction
| VariantPruning
| CarMatchmaker
| TradeOffNegotiator
| ContextAwareness
| Validation
| AdvancedReasoning
| Explanation.

(** The ['step'] written into the trace. *)
Definition step_number (s : Stage) : Q :=
  match s with
  | PreferenceExtraction => 1
  | VariantPruning => 2
  | CarMatchmaker => 3
  | TradeOffNegotiator => 4
  | ContextAwareness => 5
  | Validation => 6
  | AdvancedReasoning => 7
  | Explanation => 8
  end%Q.

(** [self.agents[...].name] *)
Definition agent_name (s : Stage) : string :=
  match s with
  | PreferenceExtraction => "PreferenceExtractionAgent"
  | VariantPruning => "VariantPruningAgent"
  | CarMatchmaker => "CarMatchmakerAgent"
  | TradeOffNegotiator => "TradeOffNegotiatorAgent"
  | ContextAwareness => "ContextAwarenessAgent"
  | Validation => "ValidationAndSanityAgent"
  | AdvancedReasoning => "AdvancedReasoningAgent"
  | Explanation => "ExplanationAgent"
  end.

Inductive Status := StatusOk | StatusError.

Section Orchestrator.

(** The mutable context (with the session graph), the ranked variants and
    the exceptions. *)
Variables (Ctx Variant Exn : Type).

Record TraceEntry := mkEntry {
  step : Q;
  agent : string;
  status : Status;
  duration_ms : nat;
  error : option Exn
}.

(** A computation of the orchestrator: it extends the agent trace and
    either returns a value or raises. *)
Definition Run (A : Type) : Type :=
  list TraceEntry -> (Exn + A) * list TraceEntry.

Definition ret {A} (a : A) : Run A := fun tr => (inr a, tr).

Definition bind {A B} (c : Run A) (k : A -> Run B) : Run B :=
  fun tr =>
    match c tr with
    | (inr a, tr') => k a tr'
    | (inl e, tr') => (inl e, tr')
    end.

Definition raise {A} (e : Exn) : Run A := fun tr => (inl e, tr).

(** [try: c  except Exception as e: handler(e)] *)
Definition try_except {A} (c : Run A) (handler : Exn -> Run A) : Run A :=
  fun tr =>
    match c tr with
    | (inl e, tr') => handler e tr'
    | ok => ok
    end.

(** [_trace(payload)] *)
Definition _trace (entry : TraceEntry) : Run unit :=
  fun tr => (inr tt, tr ++ [entry]).

(** A call that returns or raises and leaves the trace alone. *)
Definition call {A} (result : Exn + A) : Run A := fun tr => (result, tr).

Notation "x <- c ;; k" := (bind c (fun x => k))
  (at level 61, c at next level, right associativity).
Notation "c ;;; k" := (bind c (fun _ => k))
  (at level 61, right associativity).

(** [agent.execute(graph, context)] followed by the context update. *)
Variable execute : Stage -> Ctx -> Exn + Ctx.

(** The names found for [context['candidate_variants']]. *)
Variable candidate_variant_names : Ctx -> list string.

(** The body of the [try] around [existing_scoring_function]: the external
    call, the path-reasoning blend and the context-awareness signals. *)
Variable score_candidates : Ctx -> Exn + list Variant.

Variable enhance_scoring_with_diversity : Ctx -> list Variant -> Exn + list Variant.
Variable enforce_alignment : Ctx -> list Variant -> Exn + list Variant.

(** [self.hybrid_coalition.apply]; the context receives the diagnostics. *)
Variable hybrid_apply : Ctx -> list Variant -> Exn + (list Variant * Ctx).

(** [context['ranked_variants'] = ranked_variants] *)
Variable set_ranked : Ctx -> list Variant -> Ctx.

(** The final backfill over [advanced_variants] / [validated_variants]. *)
Variable final_recommendations : Ctx -> list Variant -> list Variant.

(** The elapsed milliseconds measured for a trace step. *)
Variable elapsed_ms : Q -> nat.

Definition ok_entry (step : Q) (agent : string) : TraceEntry :=
  mkEntry step agent StatusOk (elapsed_ms step) None.

Definition error_entry (step : Q) (agent : string) (e : Exn) : TraceEntry :=
  mkEntry step agent StatusError (elapsed_ms step) (Some e).

(** One numbered agent step: on an exception the error entry is traced and
    the exception is raised again. *)
Definition run_agent (s : Stage) (context : Ctx) : Run Ctx :=
  try_except
    (context' <- call (execute s context) ;;
     _trace (ok_entry (step_number s) (agent_name s)) ;;;
     ret context')
    (fun e =>
       _trace (error_entry (step_number s) (agent_name s) e) ;;;
       raise e).

(** The scoring block: any exception is printed and replaced by an empty
    ranking. *)
Definition run_scoring (context : Ctx) : Run (list Variant) :=
  try_except (call (score_candidates context)) (fun _ => ret []).

(** The hybrid coalition block: an exception is traced and the ranking
    stays as it was. *)
Definition run_hybrid (context : Ctx) (ranked_variants : list Variant)
  : Run (list Variant * Ctx) :=
  try_except
    (result <- call (hybrid_apply context ranked_variants) ;;
     _trace (ok_entry (57 # 10) "HybridGraphCoalition") ;;;
     ret result)
    (fun e =>
       _trace (error_entry (57 # 10) "HybridGraphCoalition" e) ;;;
       ret (ranked_variants, context)).

Definition run_recommendation_pipeline (context : Ctx) : Run (list Variant) :=
  context <- run_agent PreferenceExtraction context ;;
  context <- run_agent VariantPruning context ;;
  context <- run_agent CarMatchmaker context ;;
  context <- run_agent TradeOffNegotiator context ;;
  context <- run_agent ContextAwareness context ;;
  match candidate_variant_names context with
  | [] => ret []
  | _ =>
      ranked_variants <- run_scoring context ;;
      ranked_variants <-
        call (enhance_scoring_with_diversity context ranked_variants) ;;
      ranked_variants <- call (enforce_alignment context ranked_variants) ;;
      hybrid <- run_hybrid context ranked_variants ;;
      let ranked_variants := fst hybrid in
      let context := snd hybrid in
      _trace (ok_entry (55 # 10) "ScoringEngine") ;;;
      context <- run_agent Validation (set_ranked context ranked_variants) ;;
      context <- run_agent AdvancedReasoning context ;;
      context <- run_agent Explanation context ;;
      ret (firstn 5 (final_recommendations context ranked_variants))
  end.

(** *** What makes a request fail *)

(** [e] was raised by an agent step and its error entry ends the trace, or
    it escaped from one of the two rerankers called outside any [try]. *)
Definition fatal (e : Exn) (trace : list TraceEntry) : Prop :=
  (exists s context before,
      execute s context = inl e
      /\ trace = before ++ [error_entry (step_number s) (agent_name s) e])
  \/ (exists context ranked, enhance_scoring_with_diversity context ranked = inl e)
  \/ (exists context ranked, enforce_alignment context ranked = inl e).

Lemma bind_raises {A B} (c : Run A) (k : A -> Run B) tr e trf :
  bind c k tr = (inl e, trf) ->
  c tr = (inl e, trf)
  \/ exists a tr', c tr = (inr a, tr') /\ k a tr' = (inl e, trf).
Proof.
  unfold bind. destruct (c tr) as [[e'|a] tr'] eqn:E; intros H.
  - left. inversion H; subst. reflexivity.
  - right. eauto.
Qed.

Lemma run_agent_raises s context tr e :
  execute s context = inl e ->
  run_agent s context tr
  = (inl e, tr ++ [error_entry (step_number s) (agent_name s) e]).
Proof.
  intros H. unfold run_agent, try_except, bind, call, _trace, raise.
  now rewrite H.
Qed.

Lemma run_agent_returns s context tr context' :
  execute s context = inr context' ->
  run_agent s context tr
  = (inr context', tr ++ [ok_entry (step_number s) (agent_name s)]).
Proof.
  intros H. unfold run_agent, try_except, bind, call, _trace, ret.
  now rewrite H.
Qed.

Lemma run_agent_fatal s context tr e trf :
  run_agent s context tr = (inl e, trf) -> fatal e trf.
Proof.
  destruct (execute s context) as [e'|c'] eqn:E.
  - rewrite (run_agent_raises _ _ _ _ E). intros H. inversion H; subst.
    left. eauto.
  - rewrite (run_agent_returns _ _ _ _ E). discriminate.
Qed.

Lemma run_scoring_never_raises context tr :
  run_scoring context tr
  = (inr match score_candidates context with
         | inr ranked => ranked
         | inl _ => []
         end, tr).
Proof.
  unfold run_scoring, try_except, call, ret.
  now destruct (score_candidates context).
Qed.

Lemma run_hybrid_never_raises context ranked tr :
  run_hybrid context ranked tr
  = match hybrid_apply context ranked with
    | inr result => (inr result, tr ++ [ok_entry (57 # 10) "HybridGraphCoalition"])
    | inl e =>
        (inr (ranked, context),
         tr ++ [error_entry (57 # 10) "HybridGraphCoalition" e])
    end.
Proof.
  unfold run_hybrid, try_except, bind, call, _trace, ret.
  now destruct (hybrid_apply context ranked).
Qed.

Lemma call_fatal_diversity context ranked tr e trf :
  call (enhance_scoring_with_diversity context ranked) tr = (inl e, trf) ->
  fatal e trf.
Proof.
  unfold call. intros H. inversion H. right. left. eauto.
Qed.

Lemma call_fatal_alignment context ranked tr e trf :
  call (enforce_alignment context ranked) tr = (inl e, trf) ->
  fatal e trf.
Proof.
  unfold call. intros H. inversion H. right. right. eauto.
Qed.

Ltac through_bind H :=
  apply bind_raises in H;
  destruct H as [H | (?a & ?tr & _ & H)].

Lemma pipeline_failure_is_fatal context tr e trf :
  run_recommendation_pipeline context tr = (inl e, trf) -> fatal e trf.
Proof.
  unfold run_recommendation_pipeline. intros H.
  do 5 (through_bind H; [now apply run_agent_fatal in H|]).
  destruct (candidate_variant_names a3); [discriminate H|].
  through_bind H; [rewrite run_scoring_never_raises in H; discriminate H|].
  through_bind H; [now apply call_fatal_diversity in H|].
  through_bind H; [now apply call_fatal_alignment in H|].
  through_bind H.
  { rewrite run_hybrid_never_raises in H.
    destruct (hybrid_apply a3 a6); discriminate H. }
  cbv zeta in H.
  through_bind H; [discriminate H|].
  do 3 (through_bind H; [now apply run_agent_fatal in H|]).
  discriminate H.
Qed.


End Orchestrator.

(** *** Two concrete runs

    Contexts are unit, variants and exceptions are strings, and every
    collaborator returns its input unless stated otherwise. *)

Definition quiet_agents (s : Stage) (context : unit) : string + unit :=
  inr context.

Definition matchmaker_breaks (s : Stage) (context : unit) : string + unit :=
  match s with
  | CarMatchmaker => inl "KeyError: 'candidate_variants'"
  | _ => inr context
  end.

Definition scoring_breaks (context : unit) : string + list string :=
  inl "ConnectionError: embedding service unavailable".

Definition scoring_works (context : unit) : string + list string :=
  inr ["Honda City VX"; "Hyundai Verna SX"].

Definition run_with (agents : Stage -> unit -> string + unit)
           (scoring : unit -> string + list string)
  : (string + list string) * list (TraceEntry string) :=
  run_recommendation_pipeline unit string string
    agents
    (fun _ => ["Honda City VX"; "Hyundai Verna SX"])
    scoring
    (fun _ ranked => inr ranked)
    (fun _ ranked => inr ranked)
    (fun context ranked => inr (ranked, context))
    (fun context _ => context)
    (fun _ ranked => ranked)
    (fun _ => 0)
    tt [].



End Pipeline.
